(** * simple-chat: wire codec, client outbox and room registry

    A shallow embedding of the Go packages [protocol] (the line codec) and
    [server] (the room registry, the per-client outbox and the connection
    handler), with the properties of the design document proved or refuted
    against it.

    Go strings are byte sequences: they are modelled by [string] (a list of
    8-bit characters).  The registry is the Go map [clients], a [gmap] keyed
    by user name.  A Go channel is a mutable object shared by reference, so
    channels live in a store indexed by channel identifiers and a client
    record holds the identifier of its outbox. *)

From Stdlib Require Import Ascii String.
From stdpp Require Import base decidable option list strings gmap fin_maps.

Local Open Scope string_scope.

(** ** Package protocol *)

Module protocol.

Definition TypeJoin   : string := "JOIN".
Definition TypeSend   : string := "SEND".
Definition TypeLeave  : string := "LEAVE".
Definition TypeOK     : string := "OK".
Definition TypeErr    : string := "ERR".
Definition TypeMsg    : string := "MSG".
Definition TypeJoined : string := "JOINED".
Definition TypeLeft   : string := "LEFT".

(** [type Message struct { Type, Username, Body string }], the field [Type]
    being spelled [Type_] here.  A field that a
    composite literal leaves out holds the zero value, the empty string. *)
Record Message := mkMessage {
  Type_ : string;
  Username : string;
  Body : string
}.

(** [Message{}] *)
Definition zero : Message := mkMessage "" "" "".

(** Go's [error] interface restricted to the one error value the package
    declares; [None] is [nil]. *)
Inductive error_value := ErrInvalidMessage.
Definition error := option error_value.

(** The separator, as a byte. *)
Definition pipe : ascii := "|"%char.

(** [strings.Index] for a one-byte separator, together with the two slices
    taken around the match: [cut sep s] is [Some (s[:m], s[m+1:])] where
    [m] is the first index of [sep] in [s], and [None] when [sep] does not
    occur. *)
Fixpoint cut (sep : ascii) (s : string) : option (string * string) :=
  match s with
  | EmptyString => None
  | String c rest =>
      if Ascii.eqb c sep then Some (EmptyString, rest)
      else match cut sep rest with
           | Some (before, after) => Some (String c before, after)
           | None => None
           end
  end.

(** [strings.SplitN(s, sep, n)] for a one-byte separator and [n >= 0]:
    no substring for [n = 0], otherwise at most [n] substrings, the last
    one being the unsplit remainder. *)
Fixpoint SplitN (s : string) (sep : ascii) (n : nat) : list string :=
  match n with
  | 0 => []
  | S n' =>
      match n' with
      | 0 => [s]
      | S _ =>
          match cut sep s with
          | None => [s]
          | Some (before, after) => before :: SplitN after sep n'
          end
      end
  end.

(** [Encode]: a switch on [m.Type] over the eight constants, with the empty
    string as default. *)
Definition Encode (m : Message) : string :=
  if String.eqb (Type_ m) TypeJoin then TypeJoin +:+ "|" +:+ Username m
  else if String.eqb (Type_ m) TypeSend then TypeSend +:+ "|" +:+ Body m
  else if String.eqb (Type_ m) TypeLeave then TypeLeave
  else if String.eqb (Type_ m) TypeOK then TypeOK
  else if String.eqb (Type_ m) TypeErr then TypeErr +:+ "|" +:+ Body m
  else if String.eqb (Type_ m) TypeMsg then
    TypeMsg +:+ "|" +:+ Username m +:+ "|" +:+ Body m
  else if String.eqb (Type_ m) TypeJoined then TypeJoined +:+ "|" +:+ Username m
  else if String.eqb (Type_ m) TypeLeft then TypeLeft +:+ "|" +:+ Username m
  else "".

Definition invalid : Message * error := (zero, Some ErrInvalidMessage).

(** The guard [len(parts) < 2 || parts[1] == ""] followed by the use of
    [parts[1]]: the continuation receives [parts[1]] when the guard is
    false. *)
Definition with_payload (parts : list string)
    (k : string -> Message * error) : Message * error :=
  match parts with
  | _ :: p1 :: _ => if String.eqb p1 "" then invalid else k p1
  | _ => invalid
  end.

(** [Decode].  [parts[0]] always exists, [SplitN] with [n = 2] returning at
    least one substring; the empty list is mapped to the error all the
    same. *)
Definition Decode (line : string) : Message * error :=
  if String.eqb line "" then invalid
  else
    let parts := SplitN line pipe 2 in
    match parts with
    | [] => invalid
    | msgType :: _ =>
        if String.eqb msgType TypeJoin then
          with_payload parts (fun p1 => (mkMessage TypeJoin p1 "", None))
        else if String.eqb msgType TypeSend then
          with_payload parts (fun p1 => (mkMessage TypeSend "" p1, None))
        else if String.eqb msgType TypeLeave then
          (mkMessage TypeLeave "" "", None)
        else if String.eqb msgType TypeOK then
          (mkMessage TypeOK "" "", None)
        else if String.eqb msgType TypeErr then
          with_payload parts (fun p1 => (mkMessage TypeErr "" p1, None))
        else if String.eqb msgType TypeMsg then
          match parts with
          | _ :: p1 :: _ =>
              match SplitN p1 pipe 2 with
              | sub0 :: sub1 :: _ =>
                  if String.eqb sub0 "" || String.eqb sub1 "" then invalid
                  else (mkMessage TypeMsg sub0 sub1, None)
              | _ => invalid
              end
          | _ => invalid
          end
        else if String.eqb msgType TypeJoined then
          with_payload parts (fun p1 => (mkMessage TypeJoined p1 "", None))
        else if String.eqb msgType TypeLeft then
          with_payload parts (fun p1 => (mkMessage TypeLeft p1 "", None))
        else invalid
    end.

End protocol.

Import protocol.

(** ** Package server *)

Module server.

Definition outboxSize : nat := 256.

(** References to the two kinds of shared objects: buffered channels and
    network connections. *)
Definition chan_id := nat.
Definition conn_id := nat.

(** A buffered [chan string]: its capacity and the items it holds, oldest
    first. *)
Record Chan := mkChan {
  cap : nat;
  buf : list string
}.

(** What the server does to the outside: calls on a [net.Conn] and lines
    handed to [log.Printf].  A read deadline is given in seconds from the
    moment it is set, [None] being the zero [time.Time] that clears it. *)
Inductive Event :=
| SetReadDeadline (c : conn_id) (d : option nat)
| Write (c : conn_id) (data : string)
| Close (c : conn_id)
| Log (msg : string).

(** The state outside the registry: the channel store and the effects
    performed so far, oldest first. *)
Record World := mkWorld {
  chans : gmap chan_id Chan;
  trace : list Event
}.

Definition emit (e : Event) (w : World) : World :=
  mkWorld (chans w) (trace w ++ [e]).

(** [type ConnectedClient struct].  The fields [server] (a back pointer)
    and [done] (read by the write loop only) are left out.  The fields are
    never assigned after creation, so the pointer stored in the registry
    is modelled by the record itself; the outbox it refers to is shared
    through [chans]. *)
Record ConnectedClient := mkClient {
  username : string;
  conn : conn_id;
  outbox : chan_id
}.

(** [type ChatServer struct]: the [clients] map.  The listener, the mutex,
    the quit channel and the wait group serve scheduling only. *)
Record ChatServer := mkServer {
  clients : gmap string ConnectedClient
}.

(** [New] *)
Definition New : ChatServer := mkServer ∅.

(** [newConnectedClient]: [make(chan string, outboxSize)] allocates a
    channel that no existing reference designates. *)
Definition newConnectedClient (name : string) (cn : conn_id) (w : World)
    : ConnectedClient * World :=
  let ch := fresh (dom (chans w)) in
  (mkClient name cn ch,
   mkWorld (<[ch := mkChan outboxSize []]> (chans w)) (trace w)).

(** The send case [c.outbox <- line] of a [select] that has a [default]:
    it proceeds exactly when the buffer has room (no receiver is waiting
    in this sequential model), and then appends the item. *)
Definition chan_offer (line : string) (ch : Chan) : option Chan :=
  if decide (length (buf ch) < cap ch)
  then Some (mkChan (cap ch) (buf ch ++ [line]))
  else None.

(** The receive case [msg := <-c.outbox] of a [select] that has a
    [default]: the oldest item, if there is one. *)
Definition chan_poll (ch : Chan) : option (string * Chan) :=
  match buf ch with
  | [] => None
  | msg :: rest => Some (msg, mkChan (cap ch) rest)
  end.

(** [Send].  A reference that designates no channel behaves as the nil
    channel, on which a send never proceeds. *)
Definition Send (c : ConnectedClient) (line : string) (w : World) : World :=
  match chans w !! outbox c ≫= chan_offer line with
  | Some ch' => mkWorld (<[outbox c := ch']> (chans w)) (trace w)
  | None => emit (Log ("dropping message for slow client " +:+ username c)) w
  end.

(** [addClient] *)
Definition addClient (s : ChatServer) (c : ConnectedClient)
    : ChatServer * bool :=
  match clients s !! username c with
  | Some _ => (s, false)
  | None => (mkServer (<[username c := c]> (clients s)), true)
  end.

(** The body of the loop of [broadcast], for one entry of the map. *)
Definition broadcast_step (sender line : string) (w : World)
    (entry : string * ConnectedClient) : World :=
  if decide (entry.1 ≠ sender) then Send entry.2 line w else w.

(** [broadcast], with the order in which [range] visits the map made
    explicit: Go leaves it unspecified, so any enumeration of the entries
    is a possible run. *)
Definition broadcast_in (order : list (string * ConnectedClient))
    (sender line : string) (w : World) : World :=
  foldl (broadcast_step sender line) w order.

(** [broadcast], visiting the entries in the order of [map_to_list]. *)
Definition broadcast (s : ChatServer) (sender line : string) (w : World)
    : World :=
  broadcast_in (map_to_list (clients s)) sender line w.

(** [removeClient] *)
Definition removeClient (s : ChatServer) (name : string) (w : World)
    : ChatServer * World :=
  let exists_ := bool_decide (is_Some (clients s !! name)) in
  let s' := mkServer (delete name (clients s)) in
  if exists_
  then (s', broadcast s' name (Encode (mkMessage TypeLeft name "")) w)
  else (s', w).

(** [readLoop], over the lines its scanner yields before [Scan] returns
    false.  The registry is the one the handler registered the client in;
    other connections do not run in between. *)
Fixpoint readLoop (c : ConnectedClient) (lines : list string)
    (s : ChatServer) (w : World) : World :=
  match lines with
  | [] => w
  | text :: rest =>
      let '(msg, err) := Decode text in
      match err with
      | Some _ => readLoop c rest s w
      | None =>
          if String.eqb (Type_ msg) TypeSend then
            let line := Encode (mkMessage TypeMsg (username c) (Body msg)) in
            readLoop c rest s (broadcast s (username c) line w)
          else if String.eqb (Type_ msg) TypeLeave then w
          else readLoop c rest s w
      end
  end.

(** The line terminator, byte 10. *)
Definition newline : string := String (ascii_of_nat 10) EmptyString.

(** [fmt.Fprintf(conn, "%s\n", protocol.Encode(m))] *)
Definition reply (cn : conn_id) (m : Message) (w : World) : World :=
  emit (Write cn (Encode m +:+ newline)) w.

(** [handleConnection].  [first] is the outcome of the single [Scan] of
    the handshake scanner ([None] when it returns false: end of input, a
    read error or the deadline), [lines] what the scanner of the read loop
    yields afterwards.  The write loop, a goroutine of its own that moves
    items from the outbox to the connection, is not part of this
    sequential model, nor is the closing of [done] that only it observes.
    The deferred [conn.Close()] runs on every path. *)
Definition handleConnection (cn : conn_id) (first : option string)
    (lines : list string) (s : ChatServer) (w : World)
    : ChatServer * World :=
  let w := emit (SetReadDeadline cn (Some 5)) w in
  match first with
  | None => (s, emit (Close cn) w)
  | Some text =>
      let '(msg, err) := Decode text in
      if bool_decide (err ≠ None) || negb (String.eqb (Type_ msg) TypeJoin)
      then
        (s, emit (Close cn)
              (reply cn (mkMessage TypeErr "" "expected JOIN message") w))
      else
        let name := Username msg in
        if String.eqb name "" then
          (s, emit (Close cn)
                (reply cn (mkMessage TypeErr "" "username cannot be empty") w))
        else
          let '(client, w) := newConnectedClient name cn w in
          let '(s', ok) := addClient s client in
          if negb ok then
            (s', emit (Close cn)
                   (reply cn (mkMessage TypeErr "" "username taken") w))
          else
            let w := emit (SetReadDeadline cn None) w in
            let w := reply cn (mkMessage TypeOK "" "") w in
            let w :=
              broadcast s' name (Encode (mkMessage TypeJoined name "")) w in
            let w := readLoop client lines s' w in
            let '(s'', w) := removeClient s' name w in
            (s'', emit (Close cn) w)
  end.

End server.

Import server.

(** * Properties of the codec *)

Section codec.

(** The message values of the protocol: one of the eight types, carrying
    the fields of that type and no other, the required ones non-empty. *)
Inductive variant : Message → Prop :=
| VJoin name : name ≠ "" → variant (mkMessage TypeJoin name "")
| VSend body : body ≠ "" → variant (mkMessage TypeSend "" body)
| VLeave : variant (mkMessage TypeLeave "" "")
| VOK : variant (mkMessage TypeOK "" "")
| VErr body : body ≠ "" → variant (mkMessage TypeErr "" body)
| VMsg name body :
    name ≠ "" → body ≠ "" → variant (mkMessage TypeMsg name body)
| VJoined name : name ≠ "" → variant (mkMessage TypeJoined name "")
| VLeft name : name ≠ "" → variant (mkMessage TypeLeft name "").

(** A string without the separator. *)
Definition sep_free (s : string) : Prop := cut pipe s = None.

Lemma eqb_empty_false (s : string) : s ≠ "" → String.eqb s "" = false.
Proof. intros H. by apply String.eqb_neq. Qed.

Lemma cut_at_first (s rest : string) :
  sep_free s → cut pipe (s +:+ String pipe rest) = Some (s, rest).
Proof.
  unfold sep_free. induction s as [|c s IH]; simpl; [done|].
  destruct (Ascii.eqb c pipe); [done|].
  destruct (cut pipe s) as [[??]|] eqn:E; [done|].
  intros _. by rewrite IH.
Qed.

Lemma cut_Some_inv (s before after : string) :
  cut pipe s = Some (before, after) →
  s = before +:+ String pipe after ∧ sep_free before.
Proof.
  unfold sep_free. revert before.
  induction s as [|c s IH]; simpl; intros before; [done|].
  destruct (Ascii.eqb_spec c pipe) as [->|Hc].
  - intros [= <- <-]. done.
  - destruct (cut pipe s) as [[b a]|] eqn:E; [|done].
    intros [= <- <-]. destruct (IH b eq_refl) as [-> Hb]. simpl.
    split; [done|]. destruct (Ascii.eqb_spec c pipe); [done|]. by rewrite Hb.
Qed.

(** [SplitN] with [n = 2] yields one or two substrings. *)
Lemma SplitN_2 (s : string) :
  SplitN s pipe 2 =
    match cut pipe s with
    | Some (before, after) => [before; after]
    | None => [s]
    end.
Proof. simpl. by destruct (cut pipe s) as [[??]|]. Qed.

(** Whatever [Decode] returns without an error is a message value of the
    protocol. *)
Lemma Decode_variant (line : string) (m : Message) :
  Decode line = (m, None) → variant m.
Proof.
  unfold Decode. destruct (String.eqb line ""); [done|].
  rewrite SplitN_2.
  destruct (cut pipe line) as [[t p]|]; unfold with_payload, invalid;
    repeat (match goal with
            | |- context [String.eqb ?a ?b] =>
                destruct (String.eqb_spec a b); simpl
            end); try done;
    try (intros [= <-]; by constructor).
  destruct (cut pipe p) as [[u b]|]; [|done].
  destruct (String.eqb_spec u ""), (String.eqb_spec b ""); simpl; try done.
  intros [= <-]. by constructor.
Qed.

Lemma app_String (c : ascii) (s t : string) :
  String c s +:+ t = String c (s +:+ t).
Proof. reflexivity. Qed.

Lemma app_empty (t : string) : "" +:+ t = t.
Proof. reflexivity. Qed.

(** The name of a decoded Msg is free of the separator: a Msg whose name
    holds one is outside the range of [Decode]. *)
Lemma Decode_Msg_name_sep_free (line : string) (m : Message) :
  Decode line = (m, None) → Type_ m = TypeMsg → sep_free (Username m).
Proof.
  unfold Decode. destruct (String.eqb line ""); [done|].
  rewrite SplitN_2.
  destruct (cut pipe line) as [[t p]|]; unfold with_payload, invalid;
    repeat (match goal with
            | |- context [String.eqb ?a ?b] =>
                destruct (String.eqb_spec a b); simpl
            end); try done;
    try (intros [= <-]; discriminate).
  destruct (cut pipe p) as [[u b]|] eqn:Ecut; [|done].
  destruct (String.eqb u "" || String.eqb b ""); [done|].
  intros [= <-] _. simpl. by apply cut_Some_inv in Ecut as [_ Hu].
Qed.

(** The property of a codec that round-trips on every message value. *)
Definition roundtrip_on_variants : Prop :=
  ∀ m : Message, variant m → Decode (Encode m) = (m, None).

(** C7, as stated, fails: a Msg whose user name holds the separator is
    encoded to a valid line, but that line decodes to another message,
    the name being cut at its first separator. *)
Lemma roundtrip_on_variants_fails : ¬ roundtrip_on_variants.
Proof.
  intros H.
  specialize (H (mkMessage TypeMsg "a|b" "c")).
  assert (Hv : variant (mkMessage TypeMsg "a|b" "c")) by (by constructor).
  specialize (H Hv). vm_compute in H. discriminate H.
Qed.

(** C7, amended: for every message value [m] of the eight variants whose
    required fields are non-empty and, when [m] is a Msg, whose user name
    is free of the separator, [Decode (Encode m)] returns [m] and no
    error. *)
Theorem Decode_Encode_roundtrip (m : Message) :
  variant m →
  (Type_ m = TypeMsg → sep_free (Username m)) →
  Decode (Encode m) = (m, None).
Proof.
  intros Hv Hfree. destruct Hv as
    [name Hn|body Hb| | |body Hb|name body Hn Hb|name Hn|name Hn];
    try (unfold Decode, Encode; simpl;
         rewrite ?app_String, ?app_empty; simpl;
         by rewrite ?eqb_empty_false).
  unfold Decode, Encode. simpl. rewrite !app_String, !app_empty. simpl.
  change (String "|" body) with (String pipe body).
  rewrite (cut_at_first name body (Hfree eq_refl)).
  by rewrite (eqb_empty_false _ Hn), (eqb_empty_false _ Hb).
Qed.

Lemma Decode_Encode_roundtrip_witness :
  Decode (Encode (mkMessage TypeMsg "bob" "hi there|and more"))
  = (mkMessage TypeMsg "bob" "hi there|and more", None).
Proof.
  apply Decode_Encode_roundtrip.
  - by constructor.
  - intros _. reflexivity.
Defined.

(** C8: the payload of a Msg is split at its first separator only, so that
    the body keeps every later one: for a non-empty name without
    separator and any non-empty body, [MSG|name|body] decodes to the Msg
    with exactly that name and body; in particular [MSG|alice|a|b|c]
    yields name alice and body a|b|c. *)
Theorem Decode_Msg_body_keeps_separators (name body : string) :
  name ≠ "" → body ≠ "" → sep_free name →
  Decode ("MSG|" +:+ name +:+ "|" +:+ body)
  = (mkMessage TypeMsg name body, None).
Proof.
  intros Hn Hb Hfree. unfold Decode.
  rewrite !app_String, !app_empty. simpl.
  change (String "|" body) with (String pipe body).
  rewrite (cut_at_first name body Hfree).
  by rewrite (eqb_empty_false _ Hn), (eqb_empty_false _ Hb).
Qed.

Lemma Decode_Msg_body_keeps_separators_witness :
  Decode "MSG|alice|a|b|c" = (mkMessage TypeMsg "alice" "a|b|c", None).
Proof.
  apply (Decode_Msg_body_keeps_separators "alice" "a|b|c");
    [discriminate | discriminate | reflexivity].
Defined.

(** C9: every message that [Decode] returns without an error satisfies
    the non-emptiness constraints of the grammar: a Join, Joined or Left
    has a non-empty user name, a Send or Err a non-empty body, and a Msg
    both. *)
Theorem Decode_required_fields_nonempty (line : string) (m : Message) :
  Decode line = (m, None) →
  ((Type_ m = TypeJoin ∨ Type_ m = TypeJoined ∨ Type_ m = TypeLeft) →
     Username m ≠ "")
  ∧ ((Type_ m = TypeSend ∨ Type_ m = TypeErr) → Body m ≠ "")
  ∧ (Type_ m = TypeMsg → Username m ≠ "" ∧ Body m ≠ "").
Proof.
  intros Hd. apply Decode_variant in Hd.
  destruct Hd; simpl; (split; [|split]); intros HT;
    first [ done | by split
          | repeat destruct HT as [HT|HT]; discriminate HT ].
Qed.

Lemma Decode_required_fields_nonempty_witness :
  Username (mkMessage TypeMsg "alice" "a|b|c") ≠ ""
  ∧ Body (mkMessage TypeMsg "alice" "a|b|c") ≠ "".
Proof.
  apply (Decode_required_fields_nonempty "MSG|alice|a|b|c");
    reflexivity.
Defined.

(** C10: whatever follows the separator after the type token of the two
    field-less types is accepted and discarded: for every string [s],
    [LEAVE|s] decodes to the Leave message and [OK|s] to the Ok message,
    without an error. *)
Theorem Decode_fieldless_ignores_trailing (s : string) :
  Decode ("LEAVE|" +:+ s) = (mkMessage TypeLeave "" "", None)
  ∧ Decode ("OK|" +:+ s) = (mkMessage TypeOK "" "", None).
Proof. split; reflexivity. Qed.

End codec.

(** * Properties of the outbox *)

Section outbox.

Implicit Types (c : ConnectedClient) (w : World) (ch : Chan).
Implicit Types (line : string) (k : chan_id).

(** A channel after a send attempt that does not wait: the item is
    appended when there is room and the channel is left as it is
    otherwise. *)
Definition chan_try_send (line : string) (ch : Chan) : Chan :=
  default ch (chan_offer line ch).

(** Receiving until the channel is empty, [fuel] bounding the number of
    receives: the items in the order in which they come out. *)
Fixpoint poll_all (fuel : nat) (ch : Chan) : list string :=
  match fuel with
  | 0 => []
  | S fuel' =>
      match chan_poll ch with
      | None => []
      | Some (msg, ch') => msg :: poll_all fuel' ch'
      end
  end.

Lemma poll_all_buf ch fuel :
  (length (buf ch) ≤ fuel)%nat → poll_all fuel ch = buf ch.
Proof.
  destruct ch as [n items]. simpl. revert items.
  induction fuel as [|fuel IH]; intros [|msg items]; simpl; try done.
  - lia.
  - intros Hle. unfold chan_poll. simpl. f_equal. apply IH. lia.
Qed.

Lemma chan_try_send_room line ch :
  length (buf ch) < cap ch →
  chan_try_send line ch = mkChan (cap ch) (buf ch ++ [line]).
Proof. intros H. unfold chan_try_send, chan_offer. by case_decide. Qed.

Lemma chan_try_send_full line ch :
  (cap ch ≤ length (buf ch))%nat → chan_try_send line ch = ch.
Proof.
  intros H. unfold chan_try_send, chan_offer. case_decide; [lia|done].
Qed.

(** The channel store after [Send]. *)
Lemma Send_chans c line w k :
  chans (Send c line w) !! k =
    if decide (k = outbox c)
    then chan_try_send line <$> chans w !! k
    else chans w !! k.
Proof.
  unfold Send, chan_try_send.
  destruct (chans w !! outbox c) as [ch|] eqn:E; simpl.
  - destruct (chan_offer line ch) as [ch'|] eqn:O; simpl.
    + rewrite lookup_insert. case_decide as Hk.
      * subst k. rewrite decide_True by done. rewrite E. simpl.
        by rewrite O.
      * by rewrite decide_False by done.
    + case_decide as Hk; [|done]. subst k. rewrite E. simpl. by rewrite O.
  - case_decide as Hk; [|done]. subst k. by rewrite E.
Qed.

Lemma Send_dom c line w : dom (chans (Send c line w)) = dom (chans w).
Proof.
  apply set_eq. intros k. rewrite !elem_of_dom, Send_chans.
  case_decide; [|done]. by rewrite fmap_is_Some.
Qed.

(** The items that successive receives obtain from the outbox of a
    client, in the order in which they come out. *)
Definition retrievable (w : World) (c : ConnectedClient) : list string :=
  match chans w !! outbox c with
  | Some ch => poll_all (length (buf ch)) ch
  | None => []
  end.

Lemma retrievable_buf w c ch :
  chans w !! outbox c = Some ch → retrievable w c = buf ch.
Proof. intros H. unfold retrievable. rewrite H. by apply poll_all_buf. Qed.

(** C3: [Send] is a total function without an error result, so that the
    caller neither waits nor sees a failure.  On an outbox that holds as
    many items as its capacity the channel is left as it is: the new item
    is dropped and receiving yields the earlier items, in their order.  On
    an outbox with room the item is appended.  No other channel is
    affected. *)
Theorem Send_drops_when_full_appends_otherwise c line w ch :
  chans w !! outbox c = Some ch →
  (length (buf ch) = cap ch →
     chans (Send c line w) !! outbox c = Some ch
     ∧ retrievable (Send c line w) c = buf ch)
  ∧ (length (buf ch) < cap ch →
     chans (Send c line w) !! outbox c
     = Some (mkChan (cap ch) (buf ch ++ [line]))
     ∧ retrievable (Send c line w) c = (buf ch ++ [line])%list)
  ∧ (∀ k, k ≠ outbox c → chans (Send c line w) !! k = chans w !! k).
Proof.
  intros Hch. split; [|split].
  - intros Hfull.
    assert (chans (Send c line w) !! outbox c = Some ch) as Hs.
    { rewrite Send_chans, decide_True by done. rewrite Hch. simpl.
      rewrite chan_try_send_full; [done|lia]. }
    split; [done|]. by rewrite (retrievable_buf _ _ _ Hs).
  - intros Hroom.
    assert (chans (Send c line w) !! outbox c
            = Some (mkChan (cap ch) (buf ch ++ [line]))) as Hs.
    { rewrite Send_chans, decide_True by done.
      rewrite Hch. simpl. by rewrite chan_try_send_room. }
    split; [done|]. by rewrite (retrievable_buf _ _ _ Hs).
  - intros k Hk. by rewrite Send_chans, decide_False.
Qed.

(** The single-slot outbox of the test suite, holding its one item. *)
Definition slow_client : ConnectedClient := mkClient "alice" 0 0.
Definition full_slot : World := mkWorld {[0 := mkChan 1 ["msg1"]]} [].

Lemma Send_drops_when_full_appends_otherwise_witness :
  chans (Send slow_client "msg2" full_slot) !! 0 = Some (mkChan 1 ["msg1"])
  ∧ retrievable (Send slow_client "msg2" full_slot) slow_client = ["msg1"].
Proof.
  apply (Send_drops_when_full_appends_otherwise
           slow_client "msg2" full_slot (mkChan 1 ["msg1"]));
    [apply lookup_singleton_eq | reflexivity].
Defined.

End outbox.

(** * Properties of the registry *)

Section registry.

Implicit Types (s : ChatServer) (c : ConnectedClient) (w : World).
Implicit Types (line sender name : string) (k : chan_id).
Implicit Types (order : list (string * ConnectedClient)).

(** C2: when the identity of the client is already a key of the registry,
    [addClient] returns false together with the registry it was given;
    otherwise it returns true together with that registry extended by the
    client under its identity. *)
Theorem addClient_rejects_present_inserts_absent s c :
  (is_Some (clients s !! username c) → addClient s c = (s, false))
  ∧ (clients s !! username c = None →
       addClient s c = (mkServer (<[username c := c]> (clients s)), true)).
Proof.
  unfold addClient. split.
  - intros [c' Hc']. by rewrite Hc'.
  - intros Hnone. by rewrite Hnone.
Qed.

(** Two sessions that claim the name alice, as in the test suite. *)
Definition alice1 : ConnectedClient := mkClient "alice" 1 1.
Definition alice2 : ConnectedClient := mkClient "alice" 2 2.

Lemma addClient_rejects_present_inserts_absent_witness :
  addClient New alice1 = (mkServer {[ "alice" := alice1 ]}, true)
  ∧ addClient (mkServer {[ "alice" := alice1 ]}) alice2
    = (mkServer {[ "alice" := alice1 ]}, false).
Proof.
  split.
  - apply (addClient_rejects_present_inserts_absent New alice1).
    apply lookup_empty.
  - apply (addClient_rejects_present_inserts_absent
             (mkServer {[ "alice" := alice1 ]}) alice2).
    exists alice1. apply lookup_singleton_eq.
Defined.

(** After [addClient] the identity is registered, to the client given
    exactly when the call succeeded, and no other identity is touched. *)
Lemma addClient_lookup s c name :
  clients (addClient s c).1 !! name =
    if decide (name = username c)
    then Some (default c (clients s !! username c))
    else clients s !! name.
Proof.
  unfold addClient. destruct (clients s !! username c) as [c'|] eqn:E; simpl.
  - case_decide as Hn; [by subst name|done].
  - rewrite lookup_insert. case_decide as Hn.
    + subst name. by rewrite decide_True.
    + by rewrite decide_False by done.
Qed.

(** ** Broadcast *)

(** The outboxes that a broadcast sends to: those of the entries whose key
    is not the sender, in the order of the visit. *)
Definition recipients order sender : list chan_id :=
  (λ e, outbox e.2) <$> filter (λ e, e.1 ≠ sender) order.

(** No two registered sessions share an outbox.  [newConnectedClient]
    gives every session a channel of its own. *)
Definition outbox_unshared s : Prop :=
  ∀ n1 n2 c1 c2,
    clients s !! n1 = Some c1 → clients s !! n2 = Some c2 →
    outbox c1 = outbox c2 → n1 = n2.

Lemma broadcast_in_cons order sender line w e :
  broadcast_in (e :: order) sender line w
  = broadcast_in order sender line (broadcast_step sender line w e).
Proof. reflexivity. Qed.

(** The channel store after a broadcast over entries with distinct
    outboxes: one send attempt on each recipient, nothing elsewhere. *)
Lemma broadcast_in_chans order sender line w k :
  NoDup (recipients order sender) →
  chans (broadcast_in order sender line w) !! k =
    if decide (k ∈ recipients order sender)
    then chan_try_send line <$> chans w !! k
    else chans w !! k.
Proof.
  revert w. induction order as [|[n c] order IH]; intros w Hnd.
  - done.
  - rewrite broadcast_in_cons. unfold recipients in *.
    rewrite filter_cons in *. unfold broadcast_step. simpl in *.
    destruct (decide (n ≠ sender)) as [Hn|Hn].
    + rewrite fmap_cons in *. simpl in *.
      apply NoDup_cons in Hnd as [Hnotin Hnd].
      rewrite (IH _ Hnd), Send_chans.
      destruct (decide (k = outbox c)) as [->|Hk].
      * rewrite decide_False by done.
        by rewrite decide_True by (apply elem_of_cons; by left).
      * destruct (decide (k ∈ _)) as [Hin|Hin].
        -- by rewrite decide_True by (apply elem_of_cons; by right).
        -- rewrite decide_False; [done|].
           intros [?|?]%elem_of_cons; done.
    + by rewrite (IH _ Hnd).
Qed.

Lemma broadcast_in_dom order sender line w :
  dom (chans (broadcast_in order sender line w)) = dom (chans w).
Proof.
  revert w. induction order as [|e order IH]; intros w; [done|].
  rewrite broadcast_in_cons, IH. unfold broadcast_step.
  case_decide; [apply Send_dom|done].
Qed.

(** The recipients of a broadcast over the registry, whatever the order
    of the visit. *)
Lemma elem_of_recipients s order sender k :
  order ≡ₚ map_to_list (clients s) →
  k ∈ recipients order sender
  ↔ ∃ name c, clients s !! name = Some c ∧ name ≠ sender ∧ outbox c = k.
Proof.
  intros Hp. unfold recipients. rewrite list_elem_of_fmap. split.
  - intros [[n c] [-> [Hn Hin]%list_elem_of_filter]].
    rewrite Hp in Hin. apply elem_of_map_to_list in Hin. by exists n, c.
  - intros (n & c & Hc & Hn & <-). exists (n, c). split; [done|].
    apply list_elem_of_filter. split; [done|].
    rewrite Hp. by apply elem_of_map_to_list.
Qed.

Lemma NoDup_recipients s order sender :
  order ≡ₚ map_to_list (clients s) → outbox_unshared s →
  NoDup (recipients order sender).
Proof.
  intros Hp Hun. unfold recipients. apply NoDup_fmap_2_strong.
  - intros [n1 c1] [n2 c2] [_ H1]%list_elem_of_filter
      [_ H2]%list_elem_of_filter Heq. simpl in Heq.
    rewrite Hp in H1, H2.
    apply elem_of_map_to_list in H1, H2.
    assert (n1 = n2) as -> by eauto. congruence.
  - apply NoDup_filter. rewrite Hp. apply NoDup_map_to_list.
Qed.

(** A broadcast over the registry, in any order of visit: every
    registered session other than the sender gets one send attempt on its
    outbox, and the outbox of the sender is left alone. *)
Lemma broadcast_in_registry s order sender line w :
  order ≡ₚ map_to_list (clients s) → outbox_unshared s →
  (∀ name c, clients s !! name = Some c → name ≠ sender →
     chans (broadcast_in order sender line w) !! outbox c
     = chan_try_send line <$> chans w !! outbox c)
  ∧ (∀ c, clients s !! sender = Some c →
     chans (broadcast_in order sender line w) !! outbox c
     = chans w !! outbox c).
Proof.
  intros Hp Hun. split.
  - intros name c Hc Hn.
    rewrite broadcast_in_chans by by eapply NoDup_recipients.
    rewrite decide_True; [done|].
    apply (elem_of_recipients s); [done|]. by exists name, c.
  - intros c Hc.
    rewrite broadcast_in_chans by by eapply NoDup_recipients.
    rewrite decide_False; [done|].
    intros (n & c' & Hc' & Hn & Heq)%(elem_of_recipients s); [|done].
    apply Hn. by eapply Hun.
Qed.

(** The scenario of the broadcast test: alice, bob and charlie are
    registered. *)
Definition room_of_three s (ca cb cc : ConnectedClient) : Prop :=
  clients s !! "alice" = Some ca
  ∧ clients s !! "bob" = Some cb
  ∧ clients s !! "charlie" = Some cc.

(** The property of a broadcast that enqueues the line on the outbox of
    every registered session but alice, in every state of the registry;
    in particular the line is then among the items of each such outbox. *)
Definition broadcast_reaches_every_other : Prop :=
  ∀ s w order line ca cb cc,
    order ≡ₚ map_to_list (clients s) → outbox_unshared s →
    room_of_three s ca cb cc →
    (∀ name c ch,
       clients s !! name = Some c → name ≠ "alice" →
       chans w !! outbox c = Some ch →
       ∃ ch', chans (broadcast_in order "alice" line w) !! outbox c
              = Some ch'
              ∧ line ∈ buf ch')
    ∧ chans (broadcast_in order "alice" line w) !! outbox ca
      = chans w !! outbox ca.

(** A room of three in which the outbox of bob, of capacity one, already
    holds an item. *)
Definition alice : ConnectedClient := mkClient "alice" 1 1.
Definition bob : ConnectedClient := mkClient "bob" 2 2.
Definition charlie : ConnectedClient := mkClient "charlie" 3 3.

Definition three : ChatServer :=
  mkServer (<["alice" := alice]> (<["bob" := bob]> {["charlie" := charlie]})).

Definition bob_is_slow : World :=
  mkWorld (<[1 := mkChan 10 []]>
             (<[2 := mkChan 1 ["JOINED|charlie"]]> {[3 := mkChan 10 []]}))
          [].

Lemma three_room : room_of_three three alice bob charlie.
Proof. by repeat split. Qed.

Lemma three_unshared : outbox_unshared three.
Proof.
  intros n1 n2 c1 c2 H1 H2 Heq. unfold three in *. simpl in *.
  rewrite !lookup_insert, lookup_singleton in H1, H2.
  repeat case_decide; simplify_eq; done.
Qed.

(** C1, as stated, fails: the outbox of bob is full, so the line is
    dropped there instead of being enqueued. *)
Lemma broadcast_reaches_every_other_fails : ¬ broadcast_reaches_every_other.
Proof.
  intros H.
  destruct (H three bob_is_slow (map_to_list (clients three))
              "MSG|alice|hi" alice bob charlie
              (reflexivity _) three_unshared three_room) as [Hall _].
  destruct (Hall "bob" bob (mkChan 1 ["JOINED|charlie"])
                 eq_refl ltac:(discriminate) eq_refl) as (ch' & Hch' & Hin).
  vm_compute in Hch'. injection Hch' as <-. simpl in Hin.
  apply elem_of_cons in Hin as [Hin|Hin]; [discriminate Hin|].
  by apply elem_of_nil in Hin.
Qed.

(** C1, amended: in every state of the registry in which alice, bob and
    charlie are registered (each session with an outbox of its own), and
    for every order in which the map is visited, [broadcast] with sender
    alice appends the line to the outbox of every registered session other
    than alice that has room, leaves a full outbox as it is (the line is
    dropped there), and leaves the outbox of alice unchanged. *)
Theorem broadcast_offers_to_every_other s w order line ca cb cc :
  order ≡ₚ map_to_list (clients s) → outbox_unshared s →
  room_of_three s ca cb cc →
  (∀ name c ch,
     clients s !! name = Some c → name ≠ "alice" →
     chans w !! outbox c = Some ch →
     chans (broadcast_in order "alice" line w) !! outbox c
     = Some (if decide (length (buf ch) < cap ch)
             then mkChan (cap ch) (buf ch ++ [line])
             else ch))
  ∧ chans (broadcast_in order "alice" line w) !! outbox ca
    = chans w !! outbox ca.
Proof.
  intros Hp Hun (Ha & _ & _).
  destruct (broadcast_in_registry s order "alice" line w Hp Hun)
    as [Hothers Hsender].
  split; [|by apply Hsender].
  intros name c ch Hc Hn Hch. rewrite (Hothers name c Hc Hn), Hch. simpl.
  unfold chan_try_send, chan_offer. by case_decide.
Qed.

Lemma broadcast_offers_to_every_other_witness :
  chans (broadcast three "alice" "MSG|alice|hi" bob_is_slow) !! 3
  = Some (mkChan 10 ["MSG|alice|hi"])
  ∧ chans (broadcast three "alice" "MSG|alice|hi" bob_is_slow) !! 2
    = Some (mkChan 1 ["JOINED|charlie"])
  ∧ chans (broadcast three "alice" "MSG|alice|hi" bob_is_slow) !! 1
    = Some (mkChan 10 []).
Proof.
  destruct (broadcast_offers_to_every_other
              three bob_is_slow (map_to_list (clients three))
              "MSG|alice|hi" alice bob charlie
              (reflexivity _) three_unshared three_room)
    as [Hall Halice].
  split; [|split].
  - exact (Hall "charlie" charlie (mkChan 10 [])
             eq_refl ltac:(discriminate) eq_refl).
  - exact (Hall "bob" bob (mkChan 1 ["JOINED|charlie"])
             eq_refl ltac:(discriminate) eq_refl).
  - exact Halice.
Defined.

(** ** Removal *)

(** The Left announcement for a name. *)
Lemma Encode_Left name :
  Encode (mkMessage TypeLeft name "") = "LEFT|" +:+ name.
Proof. reflexivity. Qed.

Lemma removeClient_present s name w :
  is_Some (clients s !! name) →
  removeClient s name w
  = (mkServer (delete name (clients s)),
     broadcast (mkServer (delete name (clients s))) name
       ("LEFT|" +:+ name) w).
Proof.
  intros Hin. unfold removeClient.
  by rewrite bool_decide_eq_true_2, Encode_Left.
Qed.

Lemma removeClient_absent s name w :
  clients s !! name = None → removeClient s name w = (s, w).
Proof.
  intros Hnone. unfold removeClient.
  rewrite bool_decide_eq_false_2 by (rewrite Hnone; by intros [??]).
  rewrite delete_id by done. by destruct s.
Qed.

(** The outboxes of the sessions that remain after a removal. *)
Lemma removeClient_sends_Left s name w other c :
  outbox_unshared s → is_Some (clients s !! name) →
  clients s !! other = Some c → other ≠ name →
  chans (removeClient s name w).2 !! outbox c
  = chan_try_send ("LEFT|" +:+ name) <$> chans w !! outbox c.
Proof.
  intros Hun Hin Hc Hne. rewrite removeClient_present by done. simpl.
  unfold broadcast.
  eapply (broadcast_in_registry (mkServer (delete name (clients s)))).
  - done.
  - intros n1 n2 c1 c2. simpl. rewrite !lookup_delete.
    repeat case_decide; try done. apply Hun.
  - simpl. rewrite lookup_delete_ne by done. exact Hc.
  - done.
Qed.

(** C4: [removeClient] leaves the registry without an entry for the
    identity, and broadcasts the Left announcement of that identity exactly
    when an entry was removed.  When one was, the announcement goes over
    the registry that remains: every remaining session (each with an
    outbox of its own) finds the line [LEFT|name] appended to its outbox
    if that has room, a full outbox being left as it is.  When there was
    none, registry and outboxes stay as they were and nothing is sent.
    Hence registering a session and removing its identity leaves no entry
    for it, and a later registration under it succeeds. *)
Theorem removeClient_removes_and_announces s name w :
  clients (removeClient s name w).1 = delete name (clients s)
  ∧ (is_Some (clients s !! name) →
       (removeClient s name w).2
       = broadcast (mkServer (delete name (clients s))) name
           ("LEFT|" +:+ name) w
       ∧ (outbox_unshared s →
          ∀ other c ch,
            clients s !! other = Some c → other ≠ name →
            chans w !! outbox c = Some ch →
            chans (removeClient s name w).2 !! outbox c
            = Some (if decide (length (buf ch) < cap ch)
                    then mkChan (cap ch) (buf ch ++ ["LEFT|" +:+ name])
                    else ch)))
  ∧ (clients s !! name = None → removeClient s name w = (s, w))
  ∧ (∀ c1 c2, username c1 = name → username c2 = name →
       clients (removeClient (addClient s c1).1 name w).1 !! name = None
       ∧ (addClient (removeClient (addClient s c1).1 name w).1 c2).2
         = true).
Proof.
  assert (∀ s', clients (removeClient s' name w).1
                = delete name (clients s')) as Hdel.
  { intros s'. unfold removeClient. by case_bool_decide. }
  split; [apply Hdel|]. split; [|split].
  - intros Hin. split; [by rewrite removeClient_present|].
    intros Hun other c ch Hc Hne Hch.
    rewrite (removeClient_sends_Left s name w other c Hun Hin Hc Hne), Hch.
    simpl. unfold chan_try_send, chan_offer. by case_decide.
  - apply removeClient_absent.
  - intros c1 c2 H1 H2.
    assert (clients (removeClient (addClient s c1).1 name w).1 !! name
            = None) as Hgone.
    { rewrite Hdel. apply lookup_delete_eq. }
    split; [done|].
    generalize dependent (removeClient (addClient s c1).1 name w).1.
    intros r Hgone. unfold addClient. by rewrite H2, Hgone.
Qed.

(** In the room of three, with the outbox of bob full: alice is removed,
    charlie gets the announcement, bob does not; removing dave, who is not
    there, changes nothing; and alice can register again once removed. *)
Lemma removeClient_removes_and_announces_witness :
  clients (removeClient three "alice" bob_is_slow).1
  = delete "alice" (clients three)
  ∧ chans (removeClient three "alice" bob_is_slow).2 !! outbox charlie
    = Some (mkChan 10 ["LEFT|alice"])
  ∧ chans (removeClient three "alice" bob_is_slow).2 !! outbox bob
    = Some (mkChan 1 ["JOINED|charlie"])
  ∧ removeClient three "dave" bob_is_slow = (three, bob_is_slow)
  ∧ clients (removeClient (addClient New alice1).1 "alice" full_slot).1
      !! "alice" = None
  ∧ (addClient (removeClient (addClient New alice1).1 "alice" full_slot).1
       alice2).2 = true.
Proof.
  destruct (removeClient_removes_and_announces three "alice" bob_is_slow)
    as (Hreg & Hpresent & _ & _).
  destruct (Hpresent ltac:(by eexists)) as [_ Hsent].
  destruct (removeClient_removes_and_announces three "dave" bob_is_slow)
    as (_ & _ & Habsent & _).
  destruct (removeClient_removes_and_announces New "alice" full_slot)
    as (_ & _ & _ & Hagain).
  split; [exact Hreg|]. split; [|split; [|split]].
  - exact (Hsent three_unshared "charlie" charlie (mkChan 10 [])
             eq_refl ltac:(discriminate) eq_refl).
  - exact (Hsent three_unshared "bob" bob (mkChan 1 ["JOINED|charlie"])
             eq_refl ltac:(discriminate) eq_refl).
  - exact (Habsent eq_refl).
  - exact (Hagain alice1 alice2 eq_refl eq_refl).
Defined.

(** X15: the announcement reaches the sessions that remain: each of them gets
    one send attempt of the Left line on its outbox. *)
Lemma removeClient_announcement_delivered s name w other c :
  outbox_unshared s → is_Some (clients s !! name) →
  other ≠ name → clients s !! other = Some c →
  chans (removeClient s name w).2 !! outbox c
  = chan_try_send ("LEFT|" +:+ name) <$> chans w !! outbox c.
Proof.
  intros Hun Hin Hne Hc. rewrite removeClient_present by done. simpl.
  unfold broadcast.
  eapply (broadcast_in_registry (mkServer (delete name (clients s)))).
  - done.
  - intros n1 n2 c1 c2. simpl. rewrite !lookup_delete.
    repeat case_decide; try done. apply Hun.
  - simpl. rewrite lookup_delete_ne by done. exact Hc.
  - done.
Qed.

End registry.

(** * Properties of the connection handler *)

Section handler.

Implicit Types (s : ChatServer) (c : ConnectedClient) (w : World).
Implicit Types (cn : conn_id) (text name : string) (lines : list string).

(** The effects of a handshake that ends in a rejection: the deadline is
    set, one Err line is written, the connection is closed. *)
Definition rejection cn (reason : string) : list Event :=
  [SetReadDeadline cn (Some 5);
   Write cn ("ERR|" +:+ reason +:+ newline);
   Close cn].

Lemma reject_effects cn (reason : string) w :
  emit (Close cn)
    (reply cn (mkMessage TypeErr "" reason)
       (emit (SetReadDeadline cn (Some 5)) w))
  = mkWorld (chans w) (trace w ++ rejection cn reason).
Proof.
  unfold emit, reply, emit, rejection. simpl. by rewrite <- !app_assoc.
Qed.

(** C5: when the first line received on a connection does not decode, or
    decodes to a message whose type is not Join, the handler writes the
    single line [ERR|expected JOIN message] and closes the connection;
    the registry and the outboxes are as before. *)
Theorem handleConnection_rejects_non_join cn text lines s w :
  (Decode text).2 ≠ None ∨ Type_ (Decode text).1 ≠ TypeJoin →
  handleConnection cn (Some text) lines s w
  = (s, mkWorld (chans w)
          (trace w ++ rejection cn "expected JOIN message")).
Proof.
  intros Hbad. unfold handleConnection.
  destruct (Decode text) as [msg err]. simpl in Hbad.
  assert (bool_decide (err ≠ None) || negb (String.eqb (Type_ msg) TypeJoin)
          = true) as ->.
  { destruct Hbad as [Herr|Hty].
    - by rewrite bool_decide_eq_true_2.
    - apply String.eqb_neq in Hty. rewrite Hty. apply orb_true_r. }
  by rewrite reject_effects.
Qed.

Lemma handleConnection_rejects_non_join_witness :
  handleConnection 7 (Some "SEND|x") [] three bob_is_slow
  = (three, mkWorld (chans bob_is_slow)
              [SetReadDeadline 7 (Some 5);
               Write 7 ("ERR|expected JOIN message" +:+ newline);
               Close 7]).
Proof.
  apply (handleConnection_rejects_non_join 7 "SEND|x" [] three bob_is_slow).
  right. discriminate.
Defined.

(** The property of a handler that answers a Join with an empty identity
    by the error about the empty name: that line is among the effects of
    the handler. *)
Definition empty_join_gets_empty_name_error : Prop :=
  ∀ cn lines s w,
    Write cn ("ERR|username cannot be empty" +:+ newline)
    ∈ trace (handleConnection cn
               (Some (Encode (mkMessage TypeJoin "" ""))) lines s w).2.

(** C6, on the code: the handler does not do what the claim says.  The
    line [JOIN|] does not decode, so the handler answers it as any other
    undecodable first line and never reaches its own test for an empty
    name. *)
Lemma empty_join_gets_empty_name_error_fails :
  ¬ empty_join_gets_empty_name_error.
Proof.
  intros H. specialize (H 0 [] New (mkWorld ∅ [])).
  vm_compute in H.
  repeat (apply elem_of_cons in H as [H|H]; [discriminate H|]).
  by apply elem_of_nil in H.
Qed.

(** C6, the code at the failing input.  For a first line that is a Join
    with an empty identity, [JOIN|], the handler writes the single line
    [ERR|expected JOIN message], not [ERR|username cannot be empty], and
    closes the connection without registering it: the branch of the
    handler that writes the error about the empty name lies behind
    [Decode], which has already rejected the line. *)
Theorem handleConnection_rejects_empty_join cn lines s w :
  handleConnection cn (Some (Encode (mkMessage TypeJoin "" ""))) lines s w
  = (s, mkWorld (chans w)
          (trace w ++ rejection cn "expected JOIN message")).
Proof.
  unfold handleConnection.
  change (Decode (Encode (mkMessage TypeJoin "" ""))) with invalid.
  unfold invalid. rewrite bool_decide_eq_true_2 by done. simpl.
  by rewrite reject_effects.
Qed.

(** The test of the handler for an empty name never succeeds: a decoded
    Join has a name. *)
Lemma decoded_join_has_name text msg :
  Decode text = (msg, None) → Type_ msg = TypeJoin →
  String.eqb (Username msg) "" = false.
Proof.
  intros Hd Hty. apply String.eqb_neq.
  apply Decode_variant in Hd. destruct Hd; try discriminate Hty; done.
Qed.

(** A whole session: dave joins the room of three, sends a line, then an
    undecodable one, then leaves; what follows the Leave is not read. *)
Example handleConnection_session :
  clients (handleConnection 7 (Some "JOIN|dave")
             ["SEND|yo"; "junk"; "LEAVE"; "SEND|late"]
             three bob_is_slow).1 = clients three
  ∧ chans (handleConnection 7 (Some "JOIN|dave")
             ["SEND|yo"; "junk"; "LEAVE"; "SEND|late"]
             three bob_is_slow).2 !! 3
    = Some (mkChan 10 ["JOINED|dave"; "MSG|dave|yo"; "LEFT|dave"])
  ∧ trace (handleConnection 7 (Some "JOIN|dave")
             ["SEND|yo"; "junk"; "LEAVE"; "SEND|late"]
             three bob_is_slow).2
    = [SetReadDeadline 7 (Some 5); SetReadDeadline 7 None;
       Write 7 ("OK" +:+ newline);
       Log "dropping message for slow client bob";
       Log "dropping message for slow client bob";
       Log "dropping message for slow client bob";
       Close 7].
Proof. repeat split; vm_compute; reflexivity. Qed.

(** When the first [Scan] yields nothing the connection is closed and
    nothing is written. *)
Lemma handleConnection_no_line cn lines s w :
  handleConnection cn None lines s w
  = (s, mkWorld (chans w)
          (trace w ++ [SetReadDeadline cn (Some 5); Close cn])).
Proof.
  unfold handleConnection, emit. simpl. by rewrite <- app_assoc.
Qed.

(** ** The invariant behind [outbox_unshared] *)

(** Every registered session is filed under its own name and its outbox
    is an allocated channel that no other registered session uses. *)
Definition registry_ok s w : Prop :=
  outbox_unshared s
  ∧ ∀ name c, clients s !! name = Some c →
              username c = name ∧ outbox c ∈ dom (chans w).

Lemma registry_ok_New w : registry_ok New w.
Proof. split; [intros ????|intros ??]; simpl; by rewrite lookup_empty. Qed.

Lemma registry_ok_dom s w w' :
  dom (chans w') = dom (chans w) → registry_ok s w → registry_ok s w'.
Proof.
  intros Hdom [Hun Hreg]. split; [done|].
  intros name c Hc. rewrite Hdom. by apply Hreg.
Qed.

Lemma registry_ok_delete s name w :
  registry_ok s w → registry_ok (mkServer (delete name (clients s))) w.
Proof.
  intros [Hun Hreg]. split.
  - intros n1 n2 c1 c2. simpl. rewrite !lookup_delete.
    repeat case_decide; try done. apply Hun.
  - intros n c. simpl. rewrite lookup_delete. case_decide; [done|].
    apply Hreg.
Qed.

Lemma broadcast_dom s sender line w :
  dom (chans (broadcast s sender line w)) = dom (chans w).
Proof. apply broadcast_in_dom. Qed.

Lemma readLoop_dom c lines s w :
  dom (chans (readLoop c lines s w)) = dom (chans w).
Proof.
  revert w. induction lines as [|text lines IH]; intros w; simpl; [done|].
  destruct (Decode text) as [msg [e|]]; [apply IH|].
  destruct (String.eqb (Type_ msg) TypeSend).
  - by rewrite IH, broadcast_dom.
  - destruct (String.eqb (Type_ msg) TypeLeave); [done|apply IH].
Qed.

Lemma removeClient_ok s name w :
  registry_ok s w →
  registry_ok (removeClient s name w).1 (removeClient s name w).2.
Proof.
  intros Hok. unfold removeClient. case_bool_decide; simpl.
  - eapply registry_ok_dom; [apply broadcast_dom|].
    by apply registry_ok_delete.
  - by apply registry_ok_delete.
Qed.

(** A session made by [newConnectedClient] can be registered without
    breaking the invariant. *)
Lemma addClient_new_ok s w name cn :
  registry_ok s w →
  registry_ok (addClient s (newConnectedClient name cn w).1).1
              (newConnectedClient name cn w).2.
Proof.
  intros [Hun Hreg]. unfold newConnectedClient, addClient. simpl.
  pose proof (is_fresh (dom (chans w))) as Hfresh.
  set (ch := fresh (dom (chans w))) in *.
  assert (∀ n c, clients s !! n = Some c → outbox c ≠ ch) as Hne.
  { intros n c Hc Heq. apply Hfresh. rewrite <- Heq. by apply (Hreg n c). }
  destruct (clients s !! name) as [c'|] eqn:E; simpl.
  - split; [done|]. intros n c Hc. split; [by apply (Hreg n c)|].
    simpl. rewrite dom_insert_L. apply elem_of_union_r. by apply (Hreg n c).
  - split.
    + intros n1 n2 c1 c2. simpl. rewrite !lookup_insert.
      repeat case_decide; intros H1 H2 Heq; simplify_eq; try done.
      * exfalso. by eapply Hne.
      * exfalso. by eapply Hne.
      * by eapply Hun.
    + intros n c. simpl. rewrite lookup_insert, dom_insert_L.
      case_decide.
      * intros [= <-]. split; [done|]. apply elem_of_union_l.
        by apply elem_of_singleton.
      * intros Hc. split; [by apply (Hreg n c)|].
        apply elem_of_union_r. by apply (Hreg n c).
Qed.

(** The handler maintains the invariant, so that every registry it
    produces from [New] satisfies [outbox_unshared]. *)
Lemma handleConnection_ok cn first lines s w :
  registry_ok s w →
  registry_ok (handleConnection cn first lines s w).1
              (handleConnection cn first lines s w).2.
Proof.
  intros Hok. unfold handleConnection.
  destruct first as [text|];
    [|by (eapply registry_ok_dom; [|exact Hok])].
  destruct (Decode text) as [msg err].
  destruct (bool_decide (err ≠ None) || _);
    [by (eapply registry_ok_dom; [|exact Hok])|].
  destruct (String.eqb (Username msg) "");
    [by (eapply registry_ok_dom; [|exact Hok])|].
  pose proof (addClient_new_ok s
                (emit (SetReadDeadline cn (Some 5)) w) (Username msg) cn)
    as Hadd.
  destruct (newConnectedClient _ _ _) as [client w1].
  specialize (Hadd Hok). simpl in Hadd.
  destruct (addClient s client) as [s' ok] eqn:Ea. simpl in Hadd.
  destruct ok; simpl; [|by (eapply registry_ok_dom; [|exact Hadd])].
  match goal with
  | |- context [removeClient s' ?n ?w2] =>
      pose proof (removeClient_ok s' n w2) as Hrm;
      destruct (removeClient s' n w2) as [s'' w3]
  end.
  simpl in *. apply Hrm.
  eapply registry_ok_dom; [|exact Hadd].
  by rewrite readLoop_dom, broadcast_dom.
Qed.

End handler.

(** * More on the codec *)

Section codec_language.

Implicit Types (line : string) (m : Message).

(** The two types without fields. *)
Definition fieldless m : Prop := Type_ m = TypeLeave ∨ Type_ m = TypeOK.

(** The lines that stand for a message: its encoding and, for a message
    without fields, its encoding followed by a separator and anything. *)
Definition wire_form line m : Prop :=
  line = Encode m ∨ (fieldless m ∧ ∃ rest, line = Encode m +:+ "|" +:+ rest).

(** The messages that the wire format can carry: the message values whose
    Msg names are free of the separator. *)
Definition carried m : Prop :=
  variant m ∧ (Type_ m = TypeMsg → sep_free (Username m)).

Lemma cut_None_app (c : ascii) (a b : string) :
  cut c (a +:+ b) = None ↔ cut c a = None ∧ cut c b = None.
Proof.
  induction a as [|x a IH]; simpl.
  - rewrite ?app_empty. by intuition.
  - rewrite ?app_String. simpl.
    destruct (Ascii.eqb x c); [by intuition|].
    destruct (cut c (a +:+ b)) as [[??]|], (cut c a) as [[??]|];
      intuition; discriminate.
Qed.

Lemma Decode_Encode_carried m : carried m → Decode (Encode m) = (m, None).
Proof.
  intros [Hv Hfree]. destruct Hv as
    [name Hn|body Hb| | |body Hb|name body Hn Hb|name Hn|name Hn];
    try (unfold Decode, Encode; simpl;
         rewrite ?app_String, ?app_empty; simpl;
         by rewrite ?eqb_empty_false).
  unfold Decode, Encode. simpl. rewrite !app_String, !app_empty. simpl.
  change (String "|" body) with (String pipe body).
  rewrite (cut_at_first name body (Hfree eq_refl)).
  by rewrite (eqb_empty_false _ Hn), (eqb_empty_false _ Hb).
Qed.

Lemma Decode_wire_form line m : Decode line = (m, None) → wire_form line m.
Proof.
  unfold Decode. destruct (String.eqb_spec line ""); [done|].
  rewrite SplitN_2.
  destruct (cut pipe line) as [[t p]|] eqn:Ecut.
  - apply cut_Some_inv in Ecut as [-> _].
    unfold with_payload, invalid;
      repeat (match goal with
              | |- context [String.eqb ?a ?b] =>
                  destruct (String.eqb_spec a b); simpl
              end); try done; subst t;
      try (intros [= <-]; by left);
      try (intros [= <-]; right; split;
           [unfold fieldless; simpl; by auto | by exists p]).
    destruct (cut pipe p) as [[u b]|] eqn:Ecut2; [|done].
    apply cut_Some_inv in Ecut2 as [-> _].
    destruct (String.eqb u "" || String.eqb b ""); [done|].
    intros [= <-]. by left.
  - unfold with_payload, invalid;
      repeat (match goal with
              | |- context [String.eqb ?a ?b] =>
                  destruct (String.eqb_spec a b); simpl
              end); try done; subst line;
      intros [= <-]; by left.
Qed.

Lemma Decode_carried line m : Decode line = (m, None) → carried m.
Proof.
  intros Hd. split; [by eapply Decode_variant|].
  by eapply Decode_Msg_name_sep_free.
Qed.

Lemma Decode_trailing_ignored m rest :
  variant m → fieldless m → Decode (Encode m +:+ "|" +:+ rest) = (m, None).
Proof.
  intros Hv [Hty|Hty]; destruct Hv; try discriminate Hty; reflexivity.
Qed.

(** X1: the language of [Decode]: a line is decoded to [m] without an error
    exactly when [m] is a message the format can carry and the line is its
    encoding, or its encoding with trailing content when [m] has no
    fields. *)
Theorem Decode_accepts_iff line m :
  Decode line = (m, None) ↔ carried m ∧ wire_form line m.
Proof.
  split.
  - intros Hd. split; [by eapply Decode_carried|by apply Decode_wire_form].
  - intros [Hc [->|[Hf [rest ->]]]].
    + by apply Decode_Encode_carried.
    + apply Decode_trailing_ignored; [apply Hc|done].
Qed.

(** X2: decoding normalises: the message obtained from a line encodes to a
    line that decodes to the same message, and that line is the original
    one unless the message has no fields. *)
Theorem Decode_then_Encode line m :
  Decode line = (m, None) →
  Decode (Encode m) = (m, None) ∧ (¬ fieldless m → Encode m = line).
Proof.
  intros Hd. split.
  - apply Decode_Encode_carried. by eapply Decode_carried.
  - intros Hnf. destruct (Decode_wire_form _ _ Hd) as [->|[Hf _]]; done.
Qed.

Lemma Decode_then_Encode_witness :
  Decode (Encode (mkMessage TypeSend "" "a|b"))
  = (mkMessage TypeSend "" "a|b", None)
  ∧ (¬ fieldless (mkMessage TypeSend "" "a|b") →
     Encode (mkMessage TypeSend "" "a|b") = "SEND|a|b").
Proof. apply (Decode_then_Encode "SEND|a|b"). reflexivity. Defined.

(** X3: [Encode] is injective on the messages the format can carry: two of
    them with the same encoding are the same message. *)
Theorem Encode_injective m1 m2 :
  carried m1 → carried m2 → Encode m1 = Encode m2 → m1 = m2.
Proof.
  intros H1 H2 Heq.
  apply Decode_Encode_carried in H1, H2. rewrite Heq in H1. congruence.
Qed.

Lemma Encode_injective_witness :
  mkMessage TypeJoined "eve" "" = mkMessage TypeJoined "eve" "".
Proof.
  apply Encode_injective; [split; [by constructor|discriminate] ..|].
  reflexivity.
Defined.

(** X4: a failed [Decode] returns the zero message with [ErrInvalidMessage]. *)
Theorem Decode_error_is_zero line :
  (Decode line).2 ≠ None → Decode line = (zero, Some ErrInvalidMessage).
Proof.
  unfold Decode. destruct (String.eqb line ""); [done|].
  rewrite SplitN_2.
  destruct (cut pipe line) as [[t p]|]; unfold with_payload, invalid;
    repeat (match goal with
            | |- context [String.eqb ?a ?b] =>
                destruct (String.eqb_spec a b); simpl
            end); try done.
  destruct (cut pipe p) as [[u b]|]; [|done].
  by destruct (String.eqb u "" || String.eqb b "").
Qed.

Lemma Decode_error_is_zero_witness :
  Decode "MSG|bob" = (zero, Some ErrInvalidMessage).
Proof. apply Decode_error_is_zero. discriminate. Defined.

(** The eight type tokens. *)
Definition known_type (t : string) : Prop :=
  t ∈ [TypeJoin; TypeSend; TypeLeave; TypeOK; TypeErr; TypeMsg; TypeJoined;
       TypeLeft].

(** X5: a message of an unknown type is encoded to the empty string, whatever
    its fields, and the empty string does not decode. *)
Theorem Encode_unknown_type_is_empty m :
  ¬ known_type (Type_ m) →
  Encode m = "" ∧ Decode (Encode m) = (zero, Some ErrInvalidMessage).
Proof.
  intros Hun. assert (Encode m = "") as ->; [|done].
  unfold Encode.
  repeat (match goal with
          | |- context [String.eqb ?a ?b] => destruct (String.eqb_spec a b)
          end);
    try done; exfalso; apply Hun; unfold known_type;
    match goal with H : Type_ m = _ |- _ => rewrite H end; set_solver.
Qed.

Lemma Encode_unknown_type_is_empty_witness :
  Encode (mkMessage "UNKNOWN" "x" "y") = ""
  ∧ Decode (Encode (mkMessage "UNKNOWN" "x" "y"))
    = (zero, Some ErrInvalidMessage).
Proof.
  apply Encode_unknown_type_is_empty. unfold known_type. simpl.
  intros H. repeat (apply elem_of_cons in H as [H|H]; [discriminate H|]).
  by apply elem_of_nil in H.
Defined.

(** X6: a line whose type token is unknown does not decode, whatever follows
    the token. *)
Theorem Decode_unknown_token (t rest : string) :
  sep_free t → ¬ known_type t →
  Decode t = (zero, Some ErrInvalidMessage)
  ∧ Decode (t +:+ "|" +:+ rest) = (zero, Some ErrInvalidMessage).
Proof.
  intros Hfree Hun.
  assert (∀ line, hd_error (SplitN line pipe 2) = Some t →
                  Decode line = (zero, Some ErrInvalidMessage)) as Hbad.
  { intros line Hhd. unfold Decode. destruct (String.eqb line ""); [done|].
    destruct (SplitN line pipe 2) as [|t' parts]; [done|].
    injection Hhd as ->.
    repeat (match goal with
            | |- context [String.eqb ?a ?b] => destruct (String.eqb_spec a b)
            end);
      try done; exfalso; apply Hun; unfold known_type; subst t; set_solver. }
  split; apply Hbad; rewrite SplitN_2.
  - unfold sep_free in Hfree. by rewrite Hfree.
  - change ("|" +:+ rest) with (String pipe rest).
    by rewrite cut_at_first.
Qed.

Lemma Decode_unknown_token_witness :
  Decode "UNKNOWN" = (zero, Some ErrInvalidMessage)
  ∧ Decode ("UNKNOWN" +:+ "|" +:+ "data") = (zero, Some ErrInvalidMessage).
Proof.
  apply Decode_unknown_token; [reflexivity|].
  unfold known_type. intros H.
  repeat (apply elem_of_cons in H as [H|H]; [discriminate H|]).
  by apply elem_of_nil in H.
Defined.

End codec_language.

(** * Framing *)

Section framing.

(** A string without the line terminator. *)
Definition line_safe (s : string) : Prop := cut (ascii_of_nat 10) s = None.

(** X7: [Encode] adds no line terminator: the encoding of a message whose
    fields hold none is a single line. *)
Theorem Encode_single_line (m : Message) :
  line_safe (Username m) → line_safe (Body m) → line_safe (Encode m).
Proof.
  intros Hu Hb. unfold Encode, line_safe in *.
  repeat (match goal with
          | |- context [String.eqb ?a ?b] => destruct (String.eqb a b)
          end);
    repeat (apply cut_None_app; split); done.
Qed.

Lemma Encode_single_line_witness :
  line_safe (Encode (mkMessage TypeMsg "alice" "a|b|c")).
Proof. apply Encode_single_line; reflexivity. Defined.

End framing.

(** * The write loop *)

(** [fmt.Fprintf(c.conn, "%s\n", msg)], as a call on the connection of the
    client. *)
Definition write_line (c : ConnectedClient) (msg : string) : Event :=
  Write (conn c) (msg +:+ newline).

(** The state after [msg := <-c.outbox] has taken an item and the line has
    been handed to the connection. *)
Definition after_write (c : ConnectedClient) (msg : string) (ch' : Chan)
    (w : World) : World :=
  emit (write_line c msg) (mkWorld (<[outbox c := ch']> (chans w)) (trace w)).

(** The inner loop of [writeLoop], entered once [done] is closed: receive
    and write until the outbox is empty, ignoring the outcome of the
    writes.  [None] when [fuel] iterations did not reach the [default]
    branch. *)
Fixpoint drain (fuel : nat) (c : ConnectedClient) (w : World)
    : option World :=
  match fuel with
  | 0 => None
  | S fuel' =>
      match chans w !! outbox c ≫= chan_poll with
      | Some (msg, ch') => drain fuel' c (after_write c msg ch' w)
      | None => Some w
      end
  end.

(** The runs of [writeLoop] that return, with no producer running in
    between: [writeLoop_run c w w' failed] when the loop started in [w]
    returns in [w'], [failed] telling whether it returned because a write
    of the outer loop failed (the writes of the inner loop may fail too,
    but their errors are discarded).  Which case of the outer [select] is
    taken and whether a write succeeds is up to the scheduler and the
    peer. *)
Inductive writeLoop_run (c : ConnectedClient) : World → World → bool → Prop :=
| run_write_ok w msg ch' w' failed :
    chans w !! outbox c ≫= chan_poll = Some (msg, ch') →
    writeLoop_run c (after_write c msg ch' w) w' failed →
    writeLoop_run c w w' failed
| run_write_err w msg ch' :
    chans w !! outbox c ≫= chan_poll = Some (msg, ch') →
    writeLoop_run c w (after_write c msg ch' w) true
| run_done w fuel w' :
    drain fuel c w = Some w' →
    writeLoop_run c w w' false.

Section write_loop.

Implicit Types (c : ConnectedClient) (w : World) (ch : Chan).

(** What a run of the write loop has done to the world: the items
    [written] were taken from the head of the outbox and handed to the
    connection in that order, nothing else was touched. *)
Definition wrote c (written : list string) w w' : Prop :=
  trace w' = (trace w ++ (write_line c <$> written))%list
  ∧ (∀ k, k ≠ outbox c → chans w' !! k = chans w !! k)
  ∧ match chans w !! outbox c with
    | Some ch =>
        ∃ rest, buf ch = (written ++ rest)%list
                ∧ chans w' !! outbox c = Some (mkChan (cap ch) rest)
    | None => written = [] ∧ chans w' !! outbox c = None
    end.

Lemma wrote_nil c w : wrote c [] w w.
Proof.
  split; [by rewrite app_nil_r|]. split; [done|].
  destruct (chans w !! outbox c) as [[n items]|] eqn:E; [|done].
  by exists items.
Qed.

Lemma wrote_step c msg ch' w w' written :
  chans w !! outbox c ≫= chan_poll = Some (msg, ch') →
  wrote c written (after_write c msg ch' w) w' →
  wrote c (msg :: written) w w'.
Proof.
  intros Hpoll (Htr & Hother & Hbox).
  destruct (chans w !! outbox c) as [[n items]|] eqn:E; [|done].
  simpl in Hpoll. unfold chan_poll in Hpoll. simpl in Hpoll.
  destruct items as [|msg' items]; [done|]. injection Hpoll as -> <-.
  unfold after_write, emit in *. simpl in *.
  rewrite lookup_insert_eq in Hbox. simpl in Hbox.
  destruct Hbox as (rest & Hitems & Hbox). subst items.
  split; [by rewrite Htr, <- app_assoc|]. split.
  - intros k Hk. rewrite (Hother k Hk). by rewrite lookup_insert_ne.
  - rewrite E. by exists rest.
Qed.

Lemma drain_wrote fuel c w w' :
  drain fuel c w = Some w' →
  ∃ written, wrote c written w w'
             ∧ (chans w' !! outbox c ≫= chan_poll) = None.
Proof.
  revert w. induction fuel as [|fuel IH]; intros w; simpl; [done|].
  destruct (chans w !! outbox c ≫= chan_poll) as [[msg ch']|] eqn:Hpoll.
  - intros Hd. destruct (IH _ Hd) as (written & Hw & Hemp).
    exists (msg :: written). split; [by eapply wrote_step|done].
  - intros [= <-]. exists []. split; [apply wrote_nil|done].
Qed.

Lemma drain_enough fuel c w :
  (match chans w !! outbox c with
   | Some ch => length (buf ch) < fuel
   | None => 0 < fuel
   end) →
  is_Some (drain fuel c w).
Proof.
  revert w. induction fuel as [|fuel IH]; intros w Hlt.
  - destruct (chans w !! outbox c); lia.
  - simpl. destruct (chans w !! outbox c) as [[n items]|] eqn:E; simpl;
      [|done].
    unfold chan_poll. simpl. destruct items as [|msg items]; [done|].
    apply IH. unfold after_write, emit. simpl.
    rewrite lookup_insert_eq. simpl in *. lia.
Qed.

(** X8: once [done] is closed, the inner loop of [writeLoop] ends after as
    many iterations as the outbox holds items, plus one; it writes every
    queued item to the connection of the client, oldest first and each
    followed by a line terminator, leaves the outbox empty with its
    capacity, and touches no other channel. *)
Theorem drain_writes_every_item c w ch :
  chans w !! outbox c = Some ch →
  ∃ w', drain (S (length (buf ch))) c w = Some w'
        ∧ trace w' = (trace w ++ (write_line c <$> buf ch))%list
        ∧ chans w' !! outbox c = Some (mkChan (cap ch) [])
        ∧ (∀ k, k ≠ outbox c → chans w' !! k = chans w !! k).
Proof.
  intros Hch.
  destruct (drain_enough (S (length (buf ch))) c w) as [w' Hd].
  { rewrite Hch. lia. }
  exists w'. split; [done|].
  destruct (drain_wrote _ _ _ _ Hd) as (written & (Htr & Hother & Hbox) & He).
  rewrite Hch in Hbox. destruct Hbox as (rest & Hbuf & Hbox).
  rewrite Hbox in He. simpl in He. unfold chan_poll in He. simpl in He.
  destruct rest; [|done]. rewrite app_nil_r in Hbuf. subst written.
  by repeat split.
Qed.

(** The outbox of charlie after dave joined, spoke and left. *)
Definition charlie_pending : World :=
  mkWorld {[3 := mkChan 10 ["JOINED|dave"; "MSG|dave|yo"; "LEFT|dave"]]} [].

Lemma drain_writes_every_item_witness :
  ∃ w', drain 4 charlie charlie_pending = Some w'
        ∧ trace w' = [Write 3 ("JOINED|dave" +:+ newline);
                      Write 3 ("MSG|dave|yo" +:+ newline);
                      Write 3 ("LEFT|dave" +:+ newline)]
        ∧ chans w' !! 3 = Some (mkChan 10 [])
        ∧ (∀ k, k ≠ 3 → chans w' !! k = chans charlie_pending !! k).
Proof.
  apply (drain_writes_every_item charlie charlie_pending
           (mkChan 10 ["JOINED|dave"; "MSG|dave|yo"; "LEFT|dave"])).
  reflexivity.
Defined.

(** X9: every run of [writeLoop] that returns has taken a prefix of the
    outbox, oldest item first and each item once, and has handed each item
    taken, with its line terminator, to the connection of the client,
    whether or not the write went through; the items not taken are still
    queued, in their order, and no other channel is touched.  A run that
    returns through the [done] branch, rather than on a write error of the
    outer loop, leaves the outbox empty. *)
Theorem writeLoop_run_fifo c w w' failed :
  writeLoop_run c w w' failed →
  ∃ written, wrote c written w w'
             ∧ (failed = false →
                (chans w' !! outbox c ≫= chan_poll) = None).
Proof.
  induction 1 as [w msg ch' w' failed Hpoll _ (written & Hw & He)
                 |w msg ch' Hpoll|w fuel w' Hd].
  - exists (msg :: written). split; [by eapply wrote_step|done].
  - exists [msg]. split; [|done].
    eapply wrote_step; [done|apply wrote_nil].
  - destruct (drain_wrote _ _ _ _ Hd) as (written & Hw & He).
    by exists written.
Qed.

(** The world once the three pending lines of charlie are written. *)
Definition charlie_flushed : World :=
  mkWorld {[3 := mkChan 10 []]}
    [Write 3 ("JOINED|dave" +:+ newline);
     Write 3 ("MSG|dave|yo" +:+ newline);
     Write 3 ("LEFT|dave" +:+ newline)].

Lemma writeLoop_run_fifo_witness :
  ∃ written,
    wrote charlie written charlie_pending charlie_flushed
    ∧ (false = false →
       (chans charlie_flushed !! outbox charlie ≫= chan_poll) = None).
Proof.
  apply (writeLoop_run_fifo charlie charlie_pending).
  eapply run_write_ok; [reflexivity|].
  apply (run_done _ _ 3). vm_compute. reflexivity.
Defined.

End write_loop.

(** * What sending never does *)

Section quiet.

Implicit Types (s : ChatServer) (c : ConnectedClient) (w : World).
Implicit Types (line sender name : string) (k : chan_id) (ch : Chan).
Implicit Types (order : list (string * ConnectedClient)).

(** A channel holds no more items than its capacity. *)
Definition outboxes_bounded w : Prop :=
  ∀ k ch, chans w !! k = Some ch → (length (buf ch) ≤ cap ch)%nat.

(** Every channel of [w] is still there in [w'], with its capacity and
    with the items it held at the head of its queue, in their order. *)
Definition world_extends w w' : Prop :=
  ∀ k ch, chans w !! k = Some ch →
    ∃ ch', chans w' !! k = Some ch'
           ∧ cap ch' = cap ch ∧ buf ch `prefix_of` buf ch'.

Definition is_log (e : Event) : Prop :=
  match e with Log _ => True | _ => False end.

(** A step of the server that only enqueues: it creates and removes no
    channel, keeps what is queued, respects the capacities, and does
    nothing to the outside but log. *)
Definition quiet w w' : Prop :=
  dom (chans w') = dom (chans w)
  ∧ world_extends w w'
  ∧ (outboxes_bounded w → outboxes_bounded w')
  ∧ ∃ logs, trace w' = (trace w ++ logs)%list ∧ Forall is_log logs.

Lemma world_extends_refl w : world_extends w w.
Proof. intros k ch Hk. by exists ch. Qed.

Lemma world_extends_trans w1 w2 w3 :
  world_extends w1 w2 → world_extends w2 w3 → world_extends w1 w3.
Proof.
  intros H12 H23 k ch Hk.
  destruct (H12 k ch Hk) as (ch2 & Hk2 & Hcap2 & Hpre2).
  destruct (H23 k ch2 Hk2) as (ch3 & Hk3 & Hcap3 & Hpre3).
  exists ch3. split; [done|]. split; [congruence|by etrans].
Qed.

Lemma quiet_refl w : quiet w w.
Proof.
  split; [done|]. split; [apply world_extends_refl|]. split; [done|].
  exists []. by rewrite app_nil_r.
Qed.

Lemma quiet_trans w1 w2 w3 : quiet w1 w2 → quiet w2 w3 → quiet w1 w3.
Proof.
  intros (Hd1 & He1 & Hb1 & l1 & Ht1 & Hl1) (Hd2 & He2 & Hb2 & l2 & Ht2 & Hl2).
  split; [congruence|]. split; [by eapply world_extends_trans|].
  split; [auto|]. exists (l1 ++ l2)%list.
  split; [by rewrite Ht2, Ht1, <- app_assoc|]. by apply Forall_app.
Qed.

Lemma chan_try_send_cases line ch :
  (length (buf ch) < cap ch
   ∧ chan_try_send line ch = mkChan (cap ch) (buf ch ++ [line]))
  ∨ (¬ length (buf ch) < cap ch ∧ chan_try_send line ch = ch).
Proof.
  unfold chan_try_send, chan_offer. case_decide; [left|right]; done.
Qed.

Lemma Send_quiet c line w : quiet w (Send c line w).
Proof.
  split; [apply Send_dom|]. split; [|split].
  - intros k ch Hk. rewrite Send_chans, Hk. case_decide; [|by exists ch].
    simpl. eexists. split; [done|].
    destruct (chan_try_send_cases line ch) as [[_ ->]|[_ ->]]; simpl;
      [|done].
    split; [done|]. by apply prefix_app_r.
  - intros Hb k ch'. rewrite Send_chans. case_decide; [|apply Hb].
    destruct (chans w !! k) as [ch|] eqn:Hk; [|done]. simpl.
    intros [= <-]. specialize (Hb k ch Hk).
    destruct (chan_try_send_cases line ch) as [[Hlt ->]|[_ ->]]; simpl;
      [|done].
    rewrite length_app. simpl. lia.
  - unfold Send. destruct (chans w !! outbox c ≫= chan_offer line); simpl.
    + exists []. by rewrite app_nil_r.
    + eexists [_]. split; [done|]. by repeat constructor.
Qed.

Lemma broadcast_in_quiet order sender line w :
  quiet w (broadcast_in order sender line w).
Proof.
  revert w. induction order as [|e order IH]; intros w; [apply quiet_refl|].
  rewrite broadcast_in_cons. eapply quiet_trans; [|apply IH].
  unfold broadcast_step. case_decide; [apply Send_quiet|apply quiet_refl].
Qed.

(** X10: [broadcast], in whatever order it visits whatever entries, creates and
    removes no channel, changes no capacity, keeps the items already
    queued at the head of every outbox, fills no outbox beyond its
    capacity, and does nothing to any connection: its only effects on the
    outside are log lines. *)
Theorem broadcast_only_enqueues order sender line w :
  dom (chans (broadcast_in order sender line w)) = dom (chans w)
  ∧ world_extends w (broadcast_in order sender line w)
  ∧ (outboxes_bounded w →
     outboxes_bounded (broadcast_in order sender line w))
  ∧ ∃ logs, trace (broadcast_in order sender line w)
            = (trace w ++ logs)%list
            ∧ Forall is_log logs.
Proof.
  revert w. induction order as [|e order IH]; intros w; [apply quiet_refl|].
  rewrite broadcast_in_cons.
  eapply (quiet_trans _ (broadcast_step sender line w e)); [|apply IH].
  unfold broadcast_step. case_decide; [apply Send_quiet|apply quiet_refl].
Qed.

(** X11: the result of a broadcast on the outboxes does not depend on the
    order in which the map is visited. *)
Theorem broadcast_order_irrelevant s order1 order2 sender line w :
  order1 ≡ₚ map_to_list (clients s) → order2 ≡ₚ map_to_list (clients s) →
  outbox_unshared s →
  chans (broadcast_in order1 sender line w)
  = chans (broadcast_in order2 sender line w).
Proof.
  intros H1 H2 Hun. apply map_eq. intros k.
  rewrite !broadcast_in_chans by by eapply NoDup_recipients.
  destruct (decide (k ∈ recipients order1 sender)) as [Hin|Hin].
  - rewrite decide_True; [done|].
    by apply (elem_of_recipients s), (elem_of_recipients s order1).
  - rewrite decide_False; [done|]. intros Hin2. apply Hin.
    by apply (elem_of_recipients s), (elem_of_recipients s order2).
Qed.

Lemma broadcast_order_irrelevant_witness :
  chans (broadcast_in (reverse (map_to_list (clients three)))
           "alice" "MSG|alice|hi" bob_is_slow)
  = chans (broadcast_in (map_to_list (clients three))
             "alice" "MSG|alice|hi" bob_is_slow).
Proof.
  apply (broadcast_order_irrelevant three);
    [apply reverse_Permutation | reflexivity | apply three_unshared].
Defined.

(** X12: a broadcast in a room that holds nobody but the sender, the empty
    room included, changes nothing and logs nothing. *)
Theorem broadcast_lone_sender s sender line w :
  (∀ name c, clients s !! name = Some c → name = sender) →
  broadcast s sender line w = w.
Proof.
  intros Hlone. unfold broadcast.
  assert (Forall (λ e, e.1 = sender) (map_to_list (clients s))) as Hall.
  { apply Forall_forall. intros [n c] Hin.
    apply elem_of_map_to_list in Hin. simpl. by eapply Hlone. }
  revert Hall. generalize (map_to_list (clients s)).
  induction l as [|e l IH]; intros Hall; [done|].
  apply Forall_cons in Hall as [He Hall].
  rewrite broadcast_in_cons. unfold broadcast_step.
  rewrite decide_False by (intros Hne; by apply Hne). by apply IH.
Qed.

Lemma broadcast_lone_sender_witness :
  broadcast (mkServer {[ "alice" := alice1 ]}) "alice" "MSG|alice|hi"
    full_slot = full_slot.
Proof.
  apply broadcast_lone_sender. intros name c. simpl.
  rewrite lookup_singleton. case_decide; [done|discriminate].
Defined.

(** ** Registration and removal together *)

(** X13: registering a session under a free identity and removing that
    identity restores the registry exactly; the Left announcement then goes
    to the sessions of the restored registry. *)
Theorem removeClient_undoes_addClient s c w :
  clients s !! username c = None →
  removeClient (addClient s c).1 (username c) w
  = (s, broadcast s (username c) ("LEFT|" +:+ username c) w).
Proof.
  intros Hfree. unfold addClient. rewrite Hfree. simpl.
  rewrite removeClient_present by (simpl; by rewrite lookup_insert_eq).
  simpl. rewrite delete_insert_id by done. by destruct s.
Qed.

Lemma removeClient_undoes_addClient_witness :
  removeClient (addClient three (mkClient "dave" 4 4)).1 "dave" bob_is_slow
  = (three, broadcast three "dave" ("LEFT|" +:+ "dave") bob_is_slow).
Proof.
  apply (removeClient_undoes_addClient three (mkClient "dave" 4 4)).
  reflexivity.
Defined.

(** X14: of two registrations under one free identity the first succeeds and
    the second fails, and the session registered is the first. *)
Theorem addClient_first_wins s c1 c2 :
  username c1 = username c2 → clients s !! username c1 = None →
  (addClient s c1).2 = true
  ∧ addClient (addClient s c1).1 c2 = ((addClient s c1).1, false)
  ∧ clients (addClient s c1).1 !! username c1 = Some c1.
Proof.
  intros Heq Hfree. unfold addClient at 1 3 4 5. rewrite Hfree. simpl.
  split; [done|]. split; [|by rewrite lookup_insert_eq].
  unfold addClient. simpl. by rewrite <- Heq, lookup_insert_eq.
Qed.

Lemma addClient_first_wins_witness :
  (addClient New alice1).2 = true
  ∧ addClient (addClient New alice1).1 alice2
    = ((addClient New alice1).1, false)
  ∧ clients (addClient New alice1).1 !! username alice1 = Some alice1.
Proof. apply addClient_first_wins; reflexivity. Defined.

End quiet.

(** * The read loop *)

(** The lines that [readLoop] broadcasts for a client called [name] when
    its scanner yields [lines]: the Msg line of every decoded Send, in
    order, up to the first decoded Leave. *)
Fixpoint relayed (name : string) (lines : list string) : list string :=
  match lines with
  | [] => []
  | text :: rest =>
      let '(msg, err) := Decode text in
      match err with
      | Some _ => relayed name rest
      | None =>
          if String.eqb (Type_ msg) TypeSend then
            Encode (mkMessage TypeMsg name (Body msg)) :: relayed name rest
          else if String.eqb (Type_ msg) TypeLeave then []
          else relayed name rest
      end
  end.

(** A channel after send attempts of several lines, one after the other. *)
Definition chan_try_sends (lines : list string) (ch : Chan) : Chan :=
  foldl (λ ch line, chan_try_send line ch) ch lines.

Section read_loop.

Implicit Types (s : ChatServer) (c : ConnectedClient) (w : World).
Implicit Types (text name : string) (lines pre post : list string).

Lemma readLoop_relayed c lines s w :
  readLoop c lines s w
  = foldl (λ w line, broadcast s (username c) line w) w
      (relayed (username c) lines).
Proof.
  revert w. induction lines as [|text lines IH]; intros w; simpl; [done|].
  destruct (Decode text) as [msg [e|]]; [apply IH|].
  destruct (String.eqb (Type_ msg) TypeSend); [apply IH|].
  destruct (String.eqb (Type_ msg) TypeLeave); [done|apply IH].
Qed.

Lemma readLoop_quiet c lines s w : quiet w (readLoop c lines s w).
Proof.
  rewrite readLoop_relayed. generalize (relayed (username c) lines).
  intros ls. revert w. induction ls as [|l ls IH]; intros w; simpl;
    [apply quiet_refl|].
  eapply quiet_trans; [apply broadcast_in_quiet|apply IH].
Qed.

Lemma chan_try_sends_room (ls : list string) (ch : Chan) :
  (length (buf ch) + length ls ≤ cap ch)%nat →
  chan_try_sends ls ch = mkChan (cap ch) (buf ch ++ ls).
Proof.
  unfold chan_try_sends. revert ch.
  induction ls as [|l ls IH]; intros [n items]; simpl; intros Hle.
  - by rewrite app_nil_r.
  - rewrite chan_try_send_room by (simpl; lia). simpl.
    rewrite IH by (simpl; rewrite length_app; simpl; lia). simpl.
    by rewrite <- app_assoc.
Qed.

(** The outboxes after the broadcasts of a read loop, in a registry whose
    sessions have outboxes of their own. *)
Lemma broadcasts_chans s sender (ls : list string) w :
  outbox_unshared s →
  (∀ name c, clients s !! name = Some c → name ≠ sender →
     chans (foldl (λ w line, broadcast s sender line w) w ls) !! outbox c
     = chan_try_sends ls <$> chans w !! outbox c)
  ∧ (∀ c, clients s !! sender = Some c →
     chans (foldl (λ w line, broadcast s sender line w) w ls) !! outbox c
     = chans w !! outbox c).
Proof.
  intros Hun. revert w. induction ls as [|l ls IH]; intros w; simpl.
  - split; [|done]. intros name c _ _. unfold chan_try_sends. simpl.
    by destruct (chans w !! outbox c).
  - destruct (IH (broadcast s sender l w)) as [IHo IHs].
    destruct (broadcast_in_registry s (map_to_list (clients s)) sender l w
                (reflexivity _) Hun) as [Ho Hs].
    split.
    + intros name c Hc Hn. rewrite (IHo name c Hc Hn).
      unfold broadcast. rewrite (Ho name c Hc Hn).
      by destruct (chans w !! outbox c).
    + intros c Hc. rewrite (IHs c Hc). unfold broadcast. by apply Hs.
Qed.

(** X16: [readLoop] returns at the first line that decodes to a Leave: whatever
    the scanner would yield after it has no effect. *)
Theorem readLoop_stops_at_Leave c pre text post s w :
  (Decode text).2 = None → Type_ (Decode text).1 = TypeLeave →
  readLoop c (pre ++ text :: post) s w = readLoop c (pre ++ [text]) s w.
Proof.
  intros Herr Hty. revert w.
  induction pre as [|l pre IH]; intros w; simpl.
  - destruct (Decode text) as [msg err]. simpl in *. subst err.
    by rewrite Hty.
  - destruct (Decode l) as [msg [e|]]; [apply IH|].
    destruct (String.eqb (Type_ msg) TypeSend); [apply IH|].
    destruct (String.eqb (Type_ msg) TypeLeave); [done|apply IH].
Qed.

Lemma readLoop_stops_at_Leave_witness :
  readLoop bob (["SEND|hi"] ++ "LEAVE|now" :: ["SEND|late"]) three bob_is_slow
  = readLoop bob (["SEND|hi"] ++ ["LEAVE|now"]) three bob_is_slow.
Proof. apply readLoop_stops_at_Leave; reflexivity. Defined.

(** X17: [readLoop] skips a line that does not decode, and a line that decodes
    to a message that is neither a Send nor a Leave: the loop goes on as if
    the line had not been there. *)
Theorem readLoop_skips_other_lines c pre text post s w :
  (Decode text).2 ≠ None
  ∨ (Type_ (Decode text).1 ≠ TypeSend ∧ Type_ (Decode text).1 ≠ TypeLeave) →
  readLoop c (pre ++ text :: post) s w = readLoop c (pre ++ post) s w.
Proof.
  intros Hskip. revert w.
  induction pre as [|l pre IH]; intros w; simpl.
  - destruct (Decode text) as [msg [e|]]; [done|]. simpl in Hskip.
    destruct Hskip as [Herr|[Hs Hl]]; [done|].
    apply String.eqb_neq in Hs, Hl. by rewrite Hs, Hl.
  - destruct (Decode l) as [msg [e|]]; [apply IH|].
    destruct (String.eqb (Type_ msg) TypeSend); [apply IH|].
    destruct (String.eqb (Type_ msg) TypeLeave); [done|apply IH].
Qed.

Lemma readLoop_skips_other_lines_witness :
  readLoop bob (["SEND|hi"] ++ "JOIN|bob" :: ["SEND|again"]) three bob_is_slow
  = readLoop bob (["SEND|hi"] ++ ["SEND|again"]) three bob_is_slow.
Proof.
  apply readLoop_skips_other_lines. right. split; discriminate.
Defined.

(** X18: a client never receives what it sends: in a registry whose sessions
    have outboxes of their own, the read loop of a registered client leaves
    the outbox of that client as it is. *)
Theorem readLoop_spares_own_outbox c lines s w :
  outbox_unshared s → clients s !! username c = Some c →
  chans (readLoop c lines s w) !! outbox c = chans w !! outbox c.
Proof.
  intros Hun Hc. rewrite readLoop_relayed.
  by apply (broadcasts_chans s (username c)).
Qed.

Lemma readLoop_spares_own_outbox_witness :
  chans (readLoop alice ["SEND|hi"; "SEND|again"] three bob_is_slow)
    !! outbox alice = chans bob_is_slow !! outbox alice.
Proof.
  apply readLoop_spares_own_outbox; [apply three_unshared|reflexivity].
Defined.

(** X19: what a client sends reaches every other registered session in the
    order of sending: an outbox with room for all the relayed lines ends
    with these lines appended, in order, to what it held. *)
Theorem readLoop_delivers_in_order c lines s w name c' ch :
  outbox_unshared s →
  clients s !! name = Some c' → name ≠ username c →
  chans w !! outbox c' = Some ch →
  (length (buf ch) + length (relayed (username c) lines) ≤ cap ch)%nat →
  chans (readLoop c lines s w) !! outbox c'
  = Some (mkChan (cap ch) (buf ch ++ relayed (username c) lines)).
Proof.
  intros Hun Hc' Hne Hch Hroom. rewrite readLoop_relayed.
  destruct (broadcasts_chans s (username c)
              (relayed (username c) lines) w Hun) as [Ho _].
  rewrite (Ho name c' Hc' Hne), Hch. simpl.
  by rewrite chan_try_sends_room.
Qed.

Lemma readLoop_delivers_in_order_witness :
  chans (readLoop alice ["SEND|hi"; "junk"; "SEND|a|b"; "LEAVE"; "SEND|late"]
           three bob_is_slow) !! outbox charlie
  = Some (mkChan 10 ["MSG|alice|hi"; "MSG|alice|a|b"]).
Proof.
  apply (readLoop_delivers_in_order alice
           ["SEND|hi"; "junk"; "SEND|a|b"; "LEAVE"; "SEND|late"]
           three bob_is_slow "charlie" charlie (mkChan 10 []));
    [apply three_unshared | reflexivity | discriminate | reflexivity
    | vm_compute; lia].
Defined.


End read_loop.

(** * A connection from accept to close *)

Section session.

Implicit Types (s : ChatServer) (c : ConnectedClient) (w : World).
Implicit Types (cn : conn_id) (text name : string) (lines : list string).

Lemma removeClient_quiet s name w : quiet w (removeClient s name w).2.
Proof.
  unfold removeClient. case_bool_decide; simpl;
    [apply broadcast_in_quiet|apply quiet_refl].
Qed.

Lemma Decode_Join_line name :
  name ≠ "" → Decode ("JOIN|" +:+ name) = (mkMessage TypeJoin name "", None).
Proof. intros Hn. unfold Decode. simpl. by rewrite eqb_empty_false. Qed.

(** The handler on the path of a successful join, step by step. *)
Lemma handleConnection_joined cn name lines s w :
  name ≠ "" → clients s !! name = None →
  let w0 := emit (SetReadDeadline cn (Some 5)) w in
  let client := (newConnectedClient name cn w0).1 in
  let s' := mkServer (<[name := client]> (clients s)) in
  let w3 := reply cn (mkMessage TypeOK "" "")
              (emit (SetReadDeadline cn None)
                 (newConnectedClient name cn w0).2) in
  let w4 := broadcast s' name ("JOINED|" +:+ name) w3 in
  let w5 := readLoop client lines s' w4 in
  handleConnection cn (Some ("JOIN|" +:+ name)) lines s w
  = ((removeClient s' name w5).1,
     emit (Close cn) (removeClient s' name w5).2).
Proof.
  intros Hn Hfree. unfold handleConnection.
  rewrite (Decode_Join_line name Hn). simpl.
  rewrite (eqb_empty_false name Hn).
  unfold addClient. simpl. rewrite Hfree. simpl.
  by destruct (removeClient _ _ _).
Qed.

(** X20: whatever it receives, the handler returns the registry it was given:
    a rejected connection is never registered, and an accepted one is
    removed again before the handler returns, so that its identity is free
    for the next connection. *)
Theorem handleConnection_restores_registry cn first lines s w :
  (handleConnection cn first lines s w).1 = s.
Proof.
  unfold handleConnection. destruct first as [text|]; [|done].
  destruct (Decode text) as [msg err].
  destruct (bool_decide (err ≠ None) || _); [done|].
  destruct (String.eqb (Username msg) ""); [done|].
  unfold newConnectedClient, addClient. simpl.
  destruct (clients s !! Username msg) as [c0|] eqn:Hlook; simpl; [done|].
  match goal with
  | |- context [removeClient ?s1 ?n ?w2] =>
      pose proof (removeClient_present s1 n w2) as Hrm;
      destruct (removeClient s1 n w2) as [s'' w6]
  end.
  simpl in *. rewrite lookup_insert_eq in Hrm.
  specialize (Hrm ltac:(by eexists)). injection Hrm as -> _.
  rewrite delete_insert_id by done. by destruct s.
Qed.

(** The connection calls of a list of effects: the lines written. *)
Definition writes (evs : list Event) : list (conn_id * string) :=
  omap (λ e, match e with Write c data => Some (c, data) | _ => None end) evs.

Definition is_close (e : Event) : Prop :=
  match e with Close _ => True | _ => False end.

Lemma logs_no_io (logs : list Event) :
  Forall is_log logs → writes logs = [] ∧ Forall (λ e, ¬ is_close e) logs.
Proof.
  induction 1 as [|e logs He _ [IHw IHc]]; [done|].
  destruct e; try done. split; [exact IHw|].
  constructor; [by intros []|exact IHc].
Qed.

(** The replies of the handler. *)
Definition handshake_replies : list string :=
  ["OK"; "ERR|expected JOIN message"; "ERR|username taken"].

(** X21: on every path the handler first sets the read deadline and last closes
    the connection, which it closes once.  When a first line was read it
    writes exactly one line to the connection: OK or one of the errors
    [expected JOIN message] and [username taken]; otherwise it writes
    nothing.  The error [username cannot be empty] is never written. *)
Theorem handleConnection_replies_once_closes_last cn first lines s w :
  ∃ mid,
    trace (handleConnection cn first lines s w).2
    = (trace w ++ SetReadDeadline cn (Some 5) :: mid ++ [Close cn])%list
    ∧ Forall (λ e, ¬ is_close e) mid
    ∧ match first with
      | None => writes mid = []
      | Some _ => ∃ answer, answer ∈ handshake_replies
                            ∧ writes mid = [(cn, answer +:+ newline)]
      end.
Proof.
  unfold handleConnection. destruct first as [text|].
  2: { exists []. simpl. by rewrite <- app_assoc. }
  destruct (Decode text) as [msg err] eqn:Hd.
  destruct (bool_decide (err ≠ None)
            || negb (String.eqb (Type_ msg) TypeJoin)) eqn:Hbad.
  { exists [Write cn ("ERR|expected JOIN message" +:+ newline)].
    simpl. rewrite <- !app_assoc. split; [done|].
    split; [constructor; [by intros []|constructor]|].
    exists "ERR|expected JOIN message". split; [|done].
    unfold handshake_replies. set_solver. }
  apply orb_false_elim in Hbad as [Herr Hty].
  apply bool_decide_eq_false in Herr. apply negb_false_iff in Hty.
  apply String.eqb_eq in Hty.
  assert (err = None) as -> by (destruct err; [by destruct Herr|done]).
  rewrite (decoded_join_has_name text msg Hd Hty).
  unfold newConnectedClient, addClient. simpl.
  destruct (clients s !! Username msg) as [c0|] eqn:Hlook; simpl.
  { exists [Write cn ("ERR|username taken" +:+ newline)].
    simpl. rewrite <- !app_assoc. split; [done|].
    split; [constructor; [by intros []|constructor]|].
    exists "ERR|username taken". split; [|done].
    unfold handshake_replies. set_solver. }
  match goal with
  | |- context [removeClient ?s1 ?n (readLoop ?c ?ls ?s2 (broadcast ?s3 ?n2 ?l ?w3))] =>
      pose proof (removeClient_quiet s1 n
                    (readLoop c ls s2 (broadcast s3 n2 l w3))) as Hq3;
      pose proof (readLoop_quiet c ls s2 (broadcast s3 n2 l w3)) as Hq2;
      pose proof (broadcast_in_quiet (map_to_list (clients s3)) n2 l w3)
        as Hq1;
      destruct (removeClient s1 n
                  (readLoop c ls s2 (broadcast s3 n2 l w3))) as [s'' w6]
  end.
  pose proof (quiet_trans _ _ _ (quiet_trans _ _ _ Hq1 Hq2) Hq3)
    as (_ & _ & _ & logs & Htr & Hlogs).
  destruct (logs_no_io logs Hlogs) as [Hnow Hnoc].
  exists ([SetReadDeadline cn None; Write cn ("OK" +:+ newline)] ++ logs)%list.
  simpl in *. rewrite Htr. simpl. rewrite <- !app_assoc. simpl.
  split; [done|].
  split; [constructor; [by intros []|constructor; [by intros []|done]]|].
  exists "OK". split; [unfold handshake_replies; set_solver|].
  by rewrite Hnow.
Qed.

(** The handler preserves what the outboxes hold. *)
Definition safe w w' : Prop :=
  world_extends w w' ∧ (outboxes_bounded w → outboxes_bounded w').

Lemma safe_trans w1 w2 w3 : safe w1 w2 → safe w2 w3 → safe w1 w3.
Proof.
  intros [He1 Hb1] [He2 Hb2].
  split; [by eapply world_extends_trans|auto].
Qed.

Lemma safe_same_chans w w' : chans w' = chans w → safe w w'.
Proof.
  intros Heq. split.
  - intros k ch Hk. exists ch. by rewrite Heq.
  - intros Hb k ch. rewrite Heq. apply Hb.
Qed.

Lemma quiet_safe w w' : quiet w w' → safe w w'.
Proof. by intros (_ & He & Hb & _). Qed.

Lemma newConnectedClient_safe name cn w :
  safe w (newConnectedClient name cn w).2.
Proof.
  unfold newConnectedClient. simpl.
  pose proof (is_fresh (dom (chans w))) as Hfresh.
  apply not_elem_of_dom in Hfresh.
  split.
  - intros k ch Hk. exists ch. simpl.
    rewrite lookup_insert_ne by congruence. done.
  - intros Hb k ch. simpl. rewrite lookup_insert. case_decide.
    + intros [= <-]. simpl. lia.
    + apply Hb.
Qed.

(** X22: whatever it receives, the handler leaves every existing outbox with
    its capacity and with the items it held, in their order, at the head
    of its queue, and fills no outbox beyond its capacity.  Only the write
    loop takes items out. *)
Theorem handleConnection_keeps_outboxes cn first lines s w :
  world_extends w (handleConnection cn first lines s w).2
  ∧ (outboxes_bounded w →
     outboxes_bounded (handleConnection cn first lines s w).2).
Proof.
  change (safe w (handleConnection cn first lines s w).2).
  unfold handleConnection. destruct first as [text|];
    [|by apply safe_same_chans].
  destruct (Decode text) as [msg err].
  destruct (bool_decide (err ≠ None) || _); [by apply safe_same_chans|].
  destruct (String.eqb (Username msg) ""); [by apply safe_same_chans|].
  pose proof (newConnectedClient_safe (Username msg) cn
                (emit (SetReadDeadline cn (Some 5)) w)) as Hnew.
  destruct (newConnectedClient _ _ _) as [client w1]. simpl in Hnew.
  assert (safe w w1) as Hw1.
  { eapply safe_trans; [|exact Hnew]. by apply safe_same_chans. }
  destruct (addClient s client) as [s' ok].
  destruct ok; simpl.
  2: { eapply safe_trans; [exact Hw1|]. by apply safe_same_chans. }
  match goal with
  | |- context [removeClient s' ?n (readLoop ?c ?ls ?s2 (broadcast ?s3 ?n2 ?l ?w3))] =>
      pose proof (removeClient_quiet s' n
                    (readLoop c ls s2 (broadcast s3 n2 l w3))) as Hq3;
      pose proof (readLoop_quiet c ls s2 (broadcast s3 n2 l w3)) as Hq2;
      pose proof (broadcast_in_quiet (map_to_list (clients s3)) n2 l w3)
        as Hq1;
      destruct (removeClient s' n
                  (readLoop c ls s2 (broadcast s3 n2 l w3))) as [s'' w6]
  end.
  simpl in *.
  eapply safe_trans; [exact Hw1|].
  eapply safe_trans; [|by apply (safe_same_chans w6)].
  eapply (safe_trans _ (reply cn (mkMessage TypeOK "" "")
                          (emit (SetReadDeadline cn None) w1)));
    [by apply safe_same_chans|].
  apply quiet_safe.
  exact (quiet_trans _ _ _ (quiet_trans _ _ _ Hq1 Hq2) Hq3).
Qed.

(** X23: a Join under an identity that is registered is answered by the single
    line [ERR|username taken] and the connection is closed; the registry
    and the outboxes of the registered sessions are as before.  The outbox
    made for the newcomer remains allocated, empty and unreferenced. *)
Theorem handleConnection_rejects_taken_name cn name lines s w c0 :
  name ≠ "" → clients s !! name = Some c0 →
  handleConnection cn (Some ("JOIN|" +:+ name)) lines s w
  = (s, mkWorld (<[fresh (dom (chans w)) := mkChan outboxSize []]> (chans w))
          (trace w ++ rejection cn "username taken")).
Proof.
  intros Hn Htaken. unfold handleConnection.
  rewrite (Decode_Join_line name Hn). simpl.
  rewrite (eqb_empty_false name Hn).
  unfold addClient. simpl. rewrite Htaken. simpl.
  unfold emit, reply, emit, rejection. simpl. by rewrite <- !app_assoc.
Qed.

Lemma handleConnection_rejects_taken_name_witness :
  handleConnection 7 (Some ("JOIN|" +:+ "bob")) [] three bob_is_slow
  = (three,
     mkWorld (<[fresh (dom (chans bob_is_slow)) := mkChan outboxSize []]>
                (chans bob_is_slow))
       (trace bob_is_slow ++ rejection 7 "username taken")).
Proof.
  apply (handleConnection_rejects_taken_name 7 "bob" [] three bob_is_slow bob);
    [discriminate|reflexivity].
Defined.

Lemma chans_emit (e : Event) w : chans (emit e w) = chans w.
Proof. reflexivity. Qed.

(** The registry and the world in which the loops of an accepted
    connection run. *)
Lemma joined_registry_ok cn name s w :
  registry_ok s w → clients s !! name = None →
  registry_ok
    (mkServer (<[name := (newConnectedClient name cn
                            (emit (SetReadDeadline cn (Some 5)) w)).1]>
                 (clients s)))
    (newConnectedClient name cn (emit (SetReadDeadline cn (Some 5)) w)).2.
Proof.
  intros Hok Hfree.
  pose proof (addClient_new_ok s (emit (SetReadDeadline cn (Some 5)) w)
                name cn) as Hadd.
  unfold addClient in Hadd. simpl in Hadd. rewrite Hfree in Hadd.
  apply Hadd. by eapply registry_ok_dom; [|exact Hok].
Qed.

(** X24: a whole session seen from another registered client: when a newcomer
    joins under a free name, sends, and its read loop ends, every session
    that was registered, if its outbox has room, has received the Joined
    line, then the relayed messages in the order of sending, then the Left
    line, after what it held before. *)
Theorem handleConnection_session_delivers cn name lines s w other c' ch :
  registry_ok s w → name ≠ "" → clients s !! name = None →
  clients s !! other = Some c' → chans w !! outbox c' = Some ch →
  (length (buf ch) + S (S (length (relayed name lines))) ≤ cap ch)%nat →
  chans (handleConnection cn (Some ("JOIN|" +:+ name)) lines s w).2
    !! outbox c'
  = Some (mkChan (cap ch)
            (buf ch ++ ("JOINED|" +:+ name)
               :: relayed name lines ++ ["LEFT|" +:+ name])).
Proof.
  intros Hok Hn Hfree Hc' Hch Hroom.
  pose proof (handleConnection_joined cn name lines s w Hn Hfree) as Hrun.
  cbv zeta in Hrun. rewrite Hrun. clear Hrun.
  pose proof (joined_registry_ok cn name s w Hok Hfree) as [Hun' _].
  assert (other ≠ name) as Hne by congruence.
  set (w0 := emit (SetReadDeadline cn (Some 5)) w) in *.
  set (client := (newConnectedClient name cn w0).1) in *.
  set (s' := mkServer (<[name := client]> (clients s))) in *.
  assert (clients s' !! other = Some c') as Hc's'.
  { simpl. by rewrite lookup_insert_ne. }
  assert (is_Some (clients s' !! name)) as Hin.
  { simpl. by rewrite lookup_insert_eq. }
  rewrite removeClient_present by done.
  cbn [snd]. rewrite chans_emit.
  destruct (broadcast_in_registry
              (mkServer (delete name (clients s')))
              (map_to_list (clients (mkServer (delete name (clients s')))))
              name
              ("LEFT|" +:+ name)
              (readLoop client lines s'
                 (broadcast s' name ("JOINED|" +:+ name)
                    (reply cn (mkMessage TypeOK "" "")
                       (emit (SetReadDeadline cn None)
                          (newConnectedClient name cn w0).2)))))
    as [Hleft _]; [done| |].
  { intros n1 n2 c1 c2. simpl. rewrite !lookup_delete.
    repeat case_decide; try done. apply Hun'. }
  unfold broadcast at 1.
  assert (clients (mkServer (delete name (clients s'))) !! other = Some c')
    as Hdel by (cbn [clients]; by rewrite lookup_delete_ne by congruence).
  rewrite (Hleft other c' Hdel Hne).
  rewrite readLoop_relayed.
  destruct (broadcasts_chans s' (username client)
              (relayed (username client) lines)
              (broadcast s' name ("JOINED|" +:+ name)
                 (reply cn (mkMessage TypeOK "" "")
                    (emit (SetReadDeadline cn None)
                       (newConnectedClient name cn w0).2))) Hun')
    as [Hrel _].
  rewrite (Hrel other c' Hc's' Hne).
  destruct (broadcast_in_registry s' (map_to_list (clients s')) name
              ("JOINED|" +:+ name)
              (reply cn (mkMessage TypeOK "" "")
                 (emit (SetReadDeadline cn None)
                    (newConnectedClient name cn w0).2))
              (reflexivity _) Hun') as [Hjoin _].
  unfold broadcast. rewrite (Hjoin other c' Hc's' Hne). simpl.
  assert (outbox c' ≠ fresh (dom (chans w))) as Hnf.
  { intros Heq. apply (is_fresh (dom (chans w))). rewrite <- Heq.
    destruct Hok as [_ Hreg]. by apply (Hreg other c'). }
  rewrite lookup_insert_ne by done. rewrite Hch. simpl. f_equal.
  transitivity (chan_try_sends
                  (("JOINED|" +:+ name) :: relayed name lines
                     ++ ["LEFT|" +:+ name]) ch).
  - unfold chan_try_sends. simpl. by rewrite foldl_app.
  - apply chan_try_sends_room. simpl. rewrite length_app. simpl. lia.
Qed.

Lemma handleConnection_session_delivers_witness :
  chans (handleConnection 7 (Some ("JOIN|" +:+ "dave"))
           ["SEND|yo"; "junk"; "LEAVE"; "SEND|late"] three bob_is_slow).2
    !! outbox charlie
  = Some (mkChan 10 ["JOINED|dave"; "MSG|dave|yo"; "LEFT|dave"]).
Proof.
  apply (handleConnection_session_delivers 7 "dave"
           ["SEND|yo"; "junk"; "LEAVE"; "SEND|late"] three bob_is_slow
           "charlie" charlie (mkChan 10 []));
    [|discriminate|reflexivity|reflexivity|reflexivity|vm_compute; lia].
  split; [apply three_unshared|].
  intros n c. unfold three. simpl.
  rewrite !lookup_insert, lookup_singleton.
  repeat case_decide; intros [= <-]; (split; [done|]);
    apply elem_of_dom; by eexists.
Defined.

(** X25: a session seen from the newcomer: nothing of what its own session
    broadcasts, neither its Joined line nor its messages nor its Left line,
    is put on its own outbox, which is still empty when the handler
    returns. *)
Theorem handleConnection_newcomer_outbox_empty cn name lines s w :
  registry_ok s w → name ≠ "" → clients s !! name = None →
  chans (handleConnection cn (Some ("JOIN|" +:+ name)) lines s w).2
    !! fresh (dom (chans w))
  = Some (mkChan outboxSize []).
Proof.
  intros Hok Hn Hfree.
  pose proof (handleConnection_joined cn name lines s w Hn Hfree) as Hrun.
  cbv zeta in Hrun. rewrite Hrun. clear Hrun.
  pose proof (joined_registry_ok cn name s w Hok Hfree) as [Hun' _].
  set (w0 := emit (SetReadDeadline cn (Some 5)) w) in *.
  set (client := (newConnectedClient name cn w0).1) in *.
  set (s' := mkServer (<[name := client]> (clients s))) in *.
  assert (clients s' !! name = Some client) as Hc
    by (simpl; by rewrite lookup_insert_eq).
  change (fresh (dom (chans w))) with (outbox client).
  rewrite removeClient_present by by eexists.
  cbn [snd]. rewrite chans_emit. unfold broadcast at 1.
  rewrite broadcast_in_chans.
  2: { apply (NoDup_recipients (mkServer (delete name (clients s'))));
         [done|].
       intros n1 n2 c1 c2. simpl. rewrite !lookup_delete.
       repeat case_decide; try done. apply Hun'. }
  rewrite decide_False.
  2: { intros (n & c & Hnc & Hne & Heq)%(elem_of_recipients
         (mkServer (delete name (clients s')))); [|done].
       cbn [clients] in Hnc. rewrite lookup_delete_ne in Hnc by done.
       apply Hne. by apply (Hun' n name c client). }
  rewrite readLoop_relayed.
  destruct (broadcasts_chans s' (username client)
              (relayed (username client) lines)
              (broadcast s' name ("JOINED|" +:+ name)
                 (reply cn (mkMessage TypeOK "" "")
                    (emit (SetReadDeadline cn None)
                       (newConnectedClient name cn w0).2))) Hun')
    as [_ Hown].
  rewrite (Hown client Hc).
  destruct (broadcast_in_registry s' (map_to_list (clients s')) name
              ("JOINED|" +:+ name)
              (reply cn (mkMessage TypeOK "" "")
                 (emit (SetReadDeadline cn None)
                    (newConnectedClient name cn w0).2))
              (reflexivity _) Hun') as [_ Hjoin].
  unfold broadcast. rewrite (Hjoin client Hc). simpl.
  by rewrite lookup_insert_eq.
Qed.

Lemma three_ok : registry_ok three bob_is_slow.
Proof.
  split; [apply three_unshared|].
  intros n c. unfold three. simpl.
  rewrite !lookup_insert, lookup_singleton.
  repeat case_decide; intros [= <-]; (split; [done|]);
    apply elem_of_dom; by eexists.
Qed.

Lemma handleConnection_newcomer_outbox_empty_witness :
  chans (handleConnection 7 (Some ("JOIN|" +:+ "dave"))
           ["SEND|yo"; "LEAVE"] three bob_is_slow).2
    !! fresh (dom (chans bob_is_slow))
  = Some (mkChan outboxSize []).
Proof.
  apply handleConnection_newcomer_outbox_empty;
    [apply three_ok|discriminate|reflexivity].
Defined.

(** X26: the invariant holds while the session of an accepted newcomer
    runs.  When the handler accepts a Join under a free name, the registry
    in which it runs the session is the one it was given extended by the
    newcomer, filed under that name with an outbox that did not exist
    before; and after the registration, after the Joined broadcast and
    after the read loop, that registry satisfies the invariant: every
    session is filed under its own name, its outbox is an allocated
    channel, and no two sessions share an outbox. *)
Theorem handleConnection_session_invariant cn name lines s w :
  registry_ok s w → name ≠ "" → clients s !! name = None →
  let client := mkClient name cn (fresh (dom (chans w))) in
  let s' := mkServer (<[name := client]> (clients s)) in
  let w1 := (newConnectedClient name cn
               (emit (SetReadDeadline cn (Some 5)) w)).2 in
  let w4 := broadcast s' name ("JOINED|" +:+ name)
              (reply cn (mkMessage TypeOK "" "")
                 (emit (SetReadDeadline cn None) w1)) in
  let w5 := readLoop client lines s' w4 in
  handleConnection cn (Some ("JOIN|" +:+ name)) lines s w
  = ((removeClient s' name w5).1, emit (Close cn) (removeClient s' name w5).2)
  ∧ (outbox client ∉ dom (chans w))
  ∧ clients s' !! name = Some client
  ∧ registry_ok s' w1 ∧ registry_ok s' w4 ∧ registry_ok s' w5.
Proof.
  intros Hok Hn Hfree client s' w1 w4 w5.
  pose proof (joined_registry_ok cn name s w Hok Hfree) as Hok1.
  split; [exact (handleConnection_joined cn name lines s w Hn Hfree)|].
  split; [apply is_fresh|].
  split; [simpl; by rewrite lookup_insert_eq|].
  split; [exact Hok1|].
  assert (registry_ok s' w4) as Hok4.
  { eapply registry_ok_dom; [|exact Hok1].
    unfold w4. by rewrite broadcast_dom. }
  split; [exact Hok4|].
  eapply registry_ok_dom; [|exact Hok4]. unfold w5. by rewrite readLoop_dom.
Qed.

Lemma handleConnection_session_invariant_witness :
  registry_ok
    (mkServer (<["dave" := mkClient "dave" 7 (fresh (dom (chans bob_is_slow)))]>
                 (clients three)))
    (readLoop (mkClient "dave" 7 (fresh (dom (chans bob_is_slow))))
       ["SEND|yo"; "LEAVE"]
       (mkServer
          (<["dave" := mkClient "dave" 7 (fresh (dom (chans bob_is_slow)))]>
             (clients three)))
       (broadcast
          (mkServer
             (<["dave" := mkClient "dave" 7
                            (fresh (dom (chans bob_is_slow)))]>
                (clients three)))
          "dave" ("JOINED|" +:+ "dave")
          (reply 7 (mkMessage TypeOK "" "")
             (emit (SetReadDeadline 7 None)
                (newConnectedClient "dave" 7
                   (emit (SetReadDeadline 7 (Some 5)) bob_is_slow)).2)))).
Proof.
  apply (handleConnection_session_invariant 7 "dave" ["SEND|yo"; "LEAVE"]
           three bob_is_slow);
    [apply three_ok|discriminate|reflexivity].
Defined.

Lemma removeClient_announcement_delivered_witness :
  chans (removeClient three "alice" bob_is_slow).2 !! outbox charlie
  = chan_try_send ("LEFT|" +:+ "alice") <$> chans bob_is_slow !! outbox charlie.
Proof.
  apply (removeClient_announcement_delivered three "alice" bob_is_slow
           "charlie" charlie);
    [apply three_unshared | by eexists | discriminate | reflexivity].
Defined.

End session.

(** * Package client *)

Module client.

(** The text of the one error of package protocol, [errors.New] of it. *)
Definition Error (e : error_value) : string :=
  match e with ErrInvalidMessage => "invalid message format" end.

(** [strings.TrimRight(s, cutset)] for a cutset of one byte: [s] without
    its trailing bytes equal to [c]. *)
Fixpoint TrimRight (s : string) (c : ascii) : string :=
  match s with
  | EmptyString => EmptyString
  | String x rest =>
      let t := TrimRight rest c in
      if String.eqb t "" && Ascii.eqb x c then EmptyString else String x t
  end.

(** [type ChatClient struct], without the reader and the [done] channel. *)
Record ChatClient := mkChatClient {
  username : string;
  conn : conn_id
}.

(** What the network does during [New]: the outcome of the dial, the error
    of the write of the Join line, and the outcome of
    [reader.ReadString('\n')].  An error is given by its text. *)
Record Net := mkNet {
  dial : conn_id * option string;
  write_err : option string;
  read : string * option string
}.

(** [New]: the client or the error returned, and the calls made on the
    connection. *)
Definition New (net : Net) (addr name : string)
    : (option ChatClient * option string) * list Event :=
  let '(cn, derr) := dial net in
  match derr with
  | Some e => ((None, Some ("connecting to server: " +:+ e)), [])
  | None =>
      let ev1 :=
        [Write cn (Encode (mkMessage TypeJoin name "") +:+ newline)] in
      match write_err net with
      | Some e => ((None, Some ("sending JOIN: " +:+ e)), (ev1 ++ [Close cn])%list)
      | None =>
          let ev2 := (ev1 ++ [SetReadDeadline cn (Some 5)])%list in
          let '(line, rerr) := read net in
          match rerr with
          | Some e =>
              ((None, Some ("reading server response: " +:+ e)),
               (ev2 ++ [Close cn])%list)
          | None =>
              let ev3 := (ev2 ++ [SetReadDeadline cn None])%list in
              let '(msg, err) := Decode (TrimRight line (ascii_of_nat 10)) in
              match err with
              | Some e =>
                  ((None, Some ("decoding server response: " +:+ Error e)),
                   (ev3 ++ [Close cn])%list)
              | None =>
                  if String.eqb (Type_ msg) TypeErr then
                    ((None, Some ("server rejected join: " +:+ Body msg)),
                     (ev3 ++ [Close cn])%list)
                  else if negb (String.eqb (Type_ msg) TypeOK) then
                    ((None, Some ("unexpected response: " +:+ Type_ msg)),
                     (ev3 ++ [Close cn])%list)
                  else ((Some (mkChatClient name cn), None), ev3)
              end
          end
      end
  end.

(** [Close]: the calls made on the connection. *)
Definition Close_ (c : ChatClient) : list Event :=
  [Write (conn c) (Encode (mkMessage TypeLeave "" "") +:+ newline);
   Close (conn c)].



End client.

(** * Properties of the client *)

Section client_side.

Implicit Types (net : client.Net) (addr name : string).

Lemma last_snoc_event (l : list Event) (e : Event) : last (l ++ [e]) = Some e.
Proof. apply last_snoc. Qed.

(** X27: [New] returns either a client and no error, or an error and no client.
    When the dial succeeded the first call on the connection writes the
    Join line of the name.  A client that is returned holds the dialled
    connection, on which nothing was closed and whose deadline was cleared
    last; on every failure after the dial the last call closes the
    connection, and when the dial itself failed nothing is called. *)
Theorem New_closes_unless_connected net addr name :
  match (client.New net addr name).1 with
  | (Some c, err) =>
      err = None ∧ c = client.mkChatClient name (client.dial net).1
      ∧ (client.dial net).2 = None
      ∧ Forall (λ e, ¬ is_close e) (client.New net addr name).2
      ∧ last (client.New net addr name).2
        = Some (SetReadDeadline (client.dial net).1 None)
  | (None, err) =>
      err ≠ None
      ∧ match (client.dial net).2 with
        | Some _ => (client.New net addr name).2 = []
        | None => last (client.New net addr name).2
                  = Some (Close (client.dial net).1)
        end
  end
  ∧ ((client.dial net).2 = None →
     head (client.New net addr name).2
     = Some (Write (client.dial net).1 ("JOIN|" +:+ name +:+ newline))).
Proof.
  unfold client.New. destruct net as [[cn [de|]] we [line re]]; simpl;
    [done|].
  destruct we as [e|]; simpl; [done|].
  destruct re as [e|]; simpl; [done|].
  destruct (Decode _) as [msg [e|]]; simpl; [done|].
  destruct (String.eqb (Type_ msg) TypeErr); simpl; [done|].
  destruct (String.eqb (Type_ msg) TypeOK); simpl; [|done].
  repeat split; try done.
  repeat (constructor; [by intros []|]). constructor.
Qed.

(** X28: [New] returns a client exactly when the dial, the write and the read
    succeed and the line read, without its trailing line terminators,
    decodes to an Ok message. *)
Theorem New_connects_iff net addr name :
  is_Some (client.New net addr name).1.1
  ↔ (client.dial net).2 = None ∧ client.write_err net = None
    ∧ (client.read net).2 = None
    ∧ ∃ msg, Decode (client.TrimRight (client.read net).1 (ascii_of_nat 10))
             = (msg, None)
             ∧ Type_ msg = TypeOK.
Proof.
  unfold client.New. destruct net as [[cn [de|]] we [line re]]; simpl.
  { split; [by intros [??]|by intros [? _]]. }
  destruct we as [e|]; simpl.
  { split; [by intros [??]|by intros (_ & ? & _)]. }
  destruct re as [e|]; simpl.
  { split; [by intros [??]|by intros (_ & _ & ? & _)]. }
  destruct (Decode _) as [msg [e|]]; simpl.
  { split; [by intros [??]|by intros (_ & _ & _ & m & ? & _)]. }
  destruct (String.eqb_spec (Type_ msg) TypeErr) as [Herr|Herr]; simpl.
  { split; [by intros [??]|]. intros (_ & _ & _ & m & [= <-] & Hok).
    rewrite Herr in Hok. discriminate Hok. }
  destruct (String.eqb_spec (Type_ msg) TypeOK) as [Hok|Hok]; simpl.
  - split; [|by eexists]. intros _. repeat split; try done. by exists msg.
  - split; [by intros [??]|]. by intros (_ & _ & _ & m & [= <-] & ?).
Qed.

Lemma New_connects_iff_witness :
  is_Some (client.New (client.mkNet (9, None) None ("OK" +:+ newline, None))
             "localhost:8080" "testuser").1.1.
Proof.
  apply New_connects_iff. simpl. repeat split; try done.
  exists (mkMessage TypeOK "" ""). split; reflexivity.
Defined.


End client_side.

(** * The line readers *)

Module bufio.

(** The limit both scanners of the server are given,
    [scanner.Buffer(make([]byte, 4096), 4096)]: a line that does not fit
    into 4096 bytes together with its terminator makes [Scan] fail. *)
Definition maxTokenSize : nat := 4096.

(** [dropCR]: the data without one trailing carriage return. *)
Fixpoint dropCR (data : string) : string :=
  match data with
  | EmptyString => EmptyString
  | String c rest =>
      match rest with
      | EmptyString =>
          if Ascii.eqb c (ascii_of_nat 13) then EmptyString else data
      | String _ _ => String c (dropCR rest)
      end
  end.

(** The tokens of a [bufio.Scanner] with the split function [ScanLines]
    and the limit [max], reading [data] after the bytes [acc] of the line
    in progress: each line without its terminator and without one trailing
    carriage return, a last line without terminator included, up to the
    first line of [max] bytes or more, at which [Scan] returns false. *)
Fixpoint scan (max : nat) (acc data : string) : list string :=
  match data with
  | EmptyString =>
      if String.eqb acc "" then []
      else if Nat.ltb (String.length acc) max then [dropCR acc] else []
  | String c rest =>
      if Ascii.eqb c (ascii_of_nat 10) then
        if Nat.ltb (String.length acc) max
        then dropCR acc :: scan max EmptyString rest
        else []
      else scan max (acc +:+ String c EmptyString) rest
  end.

(** What successive calls of [Scan] and [Text] yield on a stream that ends
    after [stream]. *)
Definition ScanLines (max : nat) (stream : string) : list string :=
  scan max EmptyString stream.

(** The results of successive calls of [ReadString('\n')] that return no
    error, reading [data] after the bytes [acc]: each line with its
    terminator.  A rest without terminator comes with an error. *)
Fixpoint read_strings (acc data : string) : list string :=
  match data with
  | EmptyString => []
  | String c rest =>
      if Ascii.eqb c (ascii_of_nat 10)
      then (acc +:+ String c EmptyString) :: read_strings EmptyString rest
      else read_strings (acc +:+ String c EmptyString) rest
  end.

Definition ReadStrings (stream : string) : list string :=
  read_strings EmptyString stream.

End bufio.

(** * Client and server together *)

Section end_to_end.

Implicit Types (s : ChatServer) (w : World) (cn : conn_id).
Implicit Types (name : string) (lines : list string).

(** The bytes of a sequence of writes of one line each,
    [fmt.Fprintf(conn, "%s\n", line)]. *)
Definition wire (lines : list string) : string :=
  foldr (λ line rest, line +:+ newline +:+ rest) "" lines.

(** A string that does not end with a carriage return. *)
Definition no_trailing_CR (data : string) : Prop := bufio.dropCR data = data.

(** A line that a scanner of the server hands over as it was written:
    without line terminator inside, without carriage return at its end,
    and within the limit. *)
Definition scannable (line : string) : Prop :=
  line_safe line ∧ no_trailing_CR line
  ∧ String.length line < bufio.maxTokenSize.

Lemma str_app_nil_r (a : string) : a +:+ "" = a.
Proof. induction a as [|x a IH]; [done|]. by rewrite app_String, IH. Qed.

Lemma str_app_assoc (a b c : string) : (a +:+ b) +:+ c = a +:+ (b +:+ c).
Proof. induction a as [|x a IH]; [done|]. by rewrite !app_String, IH. Qed.

Lemma str_length_app (a b : string) :
  String.length (a +:+ b) = String.length a + String.length b.
Proof.
  induction a as [|x a IH]; [done|]. rewrite app_String. simpl. by rewrite IH.
Qed.

Lemma line_safe_cons (x : ascii) (l : string) :
  line_safe (String x l) →
  Ascii.eqb x (ascii_of_nat 10) = false ∧ line_safe l.
Proof.
  unfold line_safe. simpl. destruct (Ascii.eqb x (ascii_of_nat 10)); [done|].
  by destruct (cut (ascii_of_nat 10) l) as [[??]|].
Qed.

Lemma scan_line (max : nat) (acc l rest : string) :
  line_safe l → String.length (acc +:+ l) < max →
  bufio.scan max acc (l +:+ newline +:+ rest)
  = bufio.dropCR (acc +:+ l) :: bufio.scan max "" rest.
Proof.
  revert acc. induction l as [|x l IH]; intros acc Hsafe Hlen.
  - rewrite str_app_nil_r in *. rewrite app_empty.
    change (newline +:+ rest) with (String (ascii_of_nat 10) rest).
    cbn [bufio.scan]. rewrite Ascii.eqb_refl.
    by apply Nat.ltb_lt in Hlen as ->.
  - apply line_safe_cons in Hsafe as [Hx Hsafe].
    rewrite app_String. cbn [bufio.scan]. rewrite Hx.
    rewrite IH; [|done|by rewrite str_app_assoc].
    by rewrite str_app_assoc.
Qed.

(** The scanner hands over scannable lines as they were written. *)
Lemma ScanLines_wire (lines : list string) :
  Forall scannable lines →
  bufio.ScanLines bufio.maxTokenSize (wire lines) = lines.
Proof.
  unfold bufio.ScanLines.
  induction 1 as [|l lines (Hsafe & Hcr & Hlen) _ IH]; [done|].
  cbn [wire foldr]. rewrite scan_line by done.
  rewrite app_empty, Hcr. f_equal. exact IH.
Qed.



Lemma dropCR_app (a b : string) :
  b ≠ "" → bufio.dropCR (a +:+ b) = a +:+ bufio.dropCR b.
Proof.
  intros Hb. induction a as [|x a IH]; [done|].
  rewrite app_String. cbn [bufio.dropCR]. rewrite IH.
  destruct (a +:+ b) as [|y r] eqn:E; [|by rewrite app_String].
  destruct a; [by rewrite app_empty in E|by rewrite app_String in E].
Qed.

(** A line made of a type token, a separator and a scannable payload that
    is not empty and leaves room for the token. *)
Lemma scannable_payload (token payload : string) :
  line_safe token → payload ≠ "" → line_safe payload →
  no_trailing_CR payload →
  String.length token + String.length payload < bufio.maxTokenSize →
  scannable (token +:+ payload).
Proof.
  intros Htok Hne Hsafe Hcr Hlen. split; [|split].
  - by apply cut_None_app.
  - unfold no_trailing_CR in *. by rewrite dropCR_app, Hcr.
  - by rewrite str_length_app.
Qed.

(** The effects performed between two states of the world. *)
Definition effects_since w w' : list Event :=
  drop (length (trace w)) (trace w').

Lemma writes_app (l1 l2 : list Event) :
  writes (l1 ++ l2) = (writes l1 ++ writes l2)%list.
Proof. apply omap_app. Qed.

(** What the handler writes in answer to the Join line of a name. *)
Lemma handshake_answer cn name lines s w :
  name ≠ "" →
  writes (effects_since w
            (handleConnection cn (Some ("JOIN|" +:+ name)) lines s w).2)
  = [(cn, match clients s !! name with
          | Some _ => "ERR|username taken"
          | None => "OK"
          end +:+ newline)].
Proof.
  intros Hn. unfold effects_since.
  destruct (clients s !! name) as [c0|] eqn:Hlook.
  - unfold handleConnection. rewrite (Decode_Join_line name Hn). simpl.
    rewrite (eqb_empty_false name Hn).
    unfold addClient. simpl. rewrite Hlook. simpl.
    rewrite <- !app_assoc. by rewrite drop_app_length.
  - pose proof (handleConnection_joined cn name lines s w Hn Hlook) as Hrun.
    cbv zeta in Hrun. rewrite Hrun. clear Hrun. cbn [snd].
    match goal with
    | |- context [removeClient ?s1 ?n (readLoop ?c ?ls ?s2 (broadcast ?s3 ?n2 ?l ?w3))] =>
        pose proof (removeClient_quiet s1 n
                      (readLoop c ls s2 (broadcast s3 n2 l w3))) as Hq3;
        pose proof (readLoop_quiet c ls s2 (broadcast s3 n2 l w3)) as Hq2;
        pose proof (broadcast_in_quiet (map_to_list (clients s3)) n2 l w3)
          as Hq1
    end.
    pose proof (quiet_trans _ _ _ (quiet_trans _ _ _ Hq1 Hq2) Hq3)
      as (_ & _ & _ & logs & Htr & Hlogs).
    destruct (logs_no_io logs Hlogs) as [Hnow _].
    unfold emit at 1. cbn [trace]. rewrite Htr. simpl.
    rewrite <- !app_assoc. rewrite drop_app_length. simpl.
    rewrite writes_app, Hnow. done.
Qed.

(** The first call that [New] makes on a dialled connection. *)
Lemma New_first_write (net : client.Net) (addr name : string) :
  (client.dial net).2 = None →
  head (client.New net addr name).2
  = Some (Write (client.dial net).1
            (Encode (mkMessage TypeJoin name "") +:+ newline)).
Proof.
  unfold client.New. destruct net as [[ccn [de|]] we [line re]]; simpl;
    [done|]. intros _.
  destruct we as [e|]; simpl; [done|].
  destruct re as [e|]; simpl; [done|].
  destruct (Decode _) as [msg [e|]]; simpl; [done|].
  destruct (String.eqb (Type_ msg) TypeErr); simpl; [done|].
  by destruct (String.eqb (Type_ msg) TypeOK).
Qed.

(** X29: the handshake, end to end.  Let the name be non-empty, without
    line terminator, not ending in a carriage return, and short enough for
    its Join line to fit the scanner.  When the first token of the
    handshake scanner comes from the bytes that [New] writes first, and
    [New] reads, with [ReadString], the bytes that the handler writes in
    answer, then [New] returns a client if the name was free, and the
    error [server rejected join: username taken] if it was registered. *)
Theorem handshake_end_to_end cn name lines s w net addr sent data answer :
  name ≠ "" → line_safe name → no_trailing_CR name →
  String.length name + 5 < bufio.maxTokenSize →
  (client.dial net).2 = None → client.write_err net = None →
  head (client.New net addr name).2 = Some (Write (client.dial net).1 sent) →
  (cn, data)
  ∈ writes (effects_since w
              (handleConnection cn
                 (head (bufio.ScanLines bufio.maxTokenSize sent))
                 lines s w).2) →
  head (bufio.ReadStrings data) = Some answer →
  client.read net = (answer, None) →
  (client.New net addr name).1
  = match clients s !! name with
    | None => (Some (client.mkChatClient name (client.dial net).1), None)
    | Some _ => (None, Some "server rejected join: username taken")
    end.
Proof.
  intros Hn Hsafe Hcr Hlen Hdial Hwrite Hsent Hdata Hanswer Hread.
  rewrite (New_first_write net addr name Hdial) in Hsent.
  injection Hsent as <-.
  assert (bufio.ScanLines bufio.maxTokenSize
            (Encode (mkMessage TypeJoin name "") +:+ newline)
          = ["JOIN|" +:+ name]) as Hscan.
  { apply (ScanLines_wire ["JOIN|" +:+ name]).
    constructor; [|constructor].
    apply scannable_payload; try done. simpl. lia. }
  rewrite Hscan in Hdata. cbn [head] in Hdata.
  rewrite (handshake_answer cn name lines s w Hn) in Hdata.
  apply list_elem_of_singleton in Hdata. injection Hdata as ->.
  unfold client.New.
  destruct net as [[ccn de] we rd]. simpl in *. subst de we rd.
  destruct (clients s !! name); injection Hanswer as <-; reflexivity.
Qed.

Lemma scanner_fits (n : nat) :
  Nat.ltb n bufio.maxTokenSize = true → n < bufio.maxTokenSize.
Proof. apply Nat.ltb_lt. Qed.

Lemma handshake_end_to_end_witness :
  (client.New (client.mkNet (9, None) None
                 ("ERR|username taken" +:+ newline, None))
     "localhost:8080" "bob").1
  = (None, Some "server rejected join: username taken").
Proof.
  apply (handshake_end_to_end 7 "bob" [] three bob_is_slow
           (client.mkNet (9, None) None
              ("ERR|username taken" +:+ newline, None))
           "localhost:8080" ("JOIN|bob" +:+ newline)
           ("ERR|username taken" +:+ newline)
           ("ERR|username taken" +:+ newline));
    try done.
  - apply scanner_fits. vm_compute. reflexivity.
  - vm_compute. apply list_elem_of_singleton. reflexivity.
Defined.





End end_to_end.
